(** * Boat / Load assignment handlers of the cargo management API

    A shallow embedding of [boats.js] (the [/boats] route handlers) over a
    model of the Datastore client it calls, and the properties of the
    Boat-Load assignment subsystem checked against it. *)

From stdpp Require Import gmap strings list fin_maps pretty stringmap.

Local Open Scope string_scope.

(** ** The Datastore client ([./database]) *)

Module Datastore.

(** The two entity kinds the handlers build keys for. *)
Inductive Kind := Boat | Load.

#[global] Instance Kind_eq_dec : EqDecision Kind.
Proof. solve_decision. Defined.

(** [datastore.key([kind, datastore.int(id)])]: a key is a kind and an
    identifier; [key.id] is a string in the client library. *)
Record Key := mkKey { kind : Kind; id : string }.

#[global] Instance Key_eq_dec : EqDecision Key.
Proof. solve_decision. Defined.

(** The stored data of a Boat.  [owner] and [isPublic] are optional: the
    assignment handlers overwrite the record with an object that has
    neither property. *)
Record BoatData := mkBoat {
  b_name : string;
  b_type : string;
  b_length : Z;
  owner : option string;
  isPublic : option bool;
  loads : list Key
}.

(** The stored data of a Load; [carrier] is [null] ([None]) or a key. *)
Record LoadData := mkLoad {
  volume : Z;
  carrier : option Key;
  content : string;
  creation_date : string
}.

(** One table per kind, addressed by the key's identifier. *)
Record Store := mkStore {
  kind_Boat : gmap string BoatData;
  kind_Load : gmap string LoadData
}.

(** What [datastore.get] hands back: the data under the symbol-keyed
    property [datastore.KEY] that holds the entity's own key. *)
Inductive Data := DBoat (d : BoatData) | DLoad (d : LoadData).
Record Entity := mkEntity { KEY : Key; data : Data }.

(** [let [r] = await datastore.get(key)]: [None] is [undefined]. *)
Definition get (k : Key) (st : Store) : option Entity :=
  match kind k with
  | Boat => (λ d, mkEntity k (DBoat d)) <$> kind_Boat st !! id k
  | Load => (λ d, mkEntity k (DLoad d)) <$> kind_Load st !! id k
  end.

Definition get_boat (i : string) (st : Store) : option BoatData :=
  kind_Boat st !! i.

Definition get_load (i : string) (st : Store) : option LoadData :=
  kind_Load st !! i.

(** [datastore.update({key, data})]: a whole-record overwrite of an entity
    that exists; the client rejects an update of a missing entity. *)
Definition update_boat (i : string) (d : BoatData) (st : Store)
  : option Store :=
  match kind_Boat st !! i with
  | Some _ => Some (mkStore (<[i := d]> (kind_Boat st)) (kind_Load st))
  | None => None
  end.

Definition update_load (i : string) (d : LoadData) (st : Store)
  : option Store :=
  match kind_Load st !! i with
  | Some _ => Some (mkStore (kind_Boat st) (<[i := d]> (kind_Load st)))
  | None => None
  end.

(** [datastore.delete(key)] for a Boat key. *)
Definition delete_boat (i : string) (st : Store) : Store :=
  mkStore (delete i (kind_Boat st)) (kind_Load st).

End Datastore.
Export Datastore.

(** ** Requests and responses (the part of Express the handlers touch) *)

Module Http.

(** The request body after the validation middleware: the three boat
    attributes, each possibly absent. *)
Record ReqBody := mkBody {
  body_name : option string;
  body_type : option string;
  body_length : option Z
}.

Record Request := mkReq {
  authenticated : bool;           (* req.authenticated *)
  sub : option string;            (* req.sub *)
  protocol : string;              (* req.protocol *)
  host : string;                  (* req.get("host") *)
  baseUrl : string;               (* req.baseUrl *)
  boat_id : string;               (* req.params.boat_id *)
  load_id : string;               (* req.params.load_id *)
  body : ReqBody                  (* req.body *)
}.

(** [{id, self}]: what a load reference is replaced with. *)
Record LoadRef := mkLoadRef { ref_id : string; ref_self : string }.

(** The object a single-Boat fetch sends. *)
Record BoatView := mkBoatView {
  v_id : string;
  v_name : string;
  v_type : string;
  v_length : Z;
  v_loads : list LoadRef;
  v_self : string
}.

(** The argument of [res.json]. *)
Inductive Json :=
| JNothing                        (* res.json() *)
| JError (msg : string)           (* {Error: msg} *)
| JBoat (v : BoatView)
| JOther.                         (* an object built by a missing module *)

Record Response := mkResp { status : nat; json : Json }.

End Http.
Export Http.

(** ** The handler monad: store, trace of store calls, response slot *)

Module Handler.

Inductive Event :=
| EvGet (k : Key)
| EvUpdate (k : Key)
| EvDelete (k : Key).

Inductive Error :=
| ReferenceError (ident : string)       (* "<ident> is not defined" *)
| TypeError (what : string)
| HeadersSent                           (* a second res.json *)
| DatastoreNotFound (k : Key).          (* update of a missing entity *)

(** The world a handler runs in.  [sent] is the response the client got
    ([None]: nothing was sent); [trace] lists the store calls, oldest
    first. *)
Record World := mkWorld {
  store : Store;
  trace : list Event;
  sent : option Response
}.

Definition init (st : Store) : World := mkWorld st [] None.

(** How the async handler function ended: its promise resolved or was
    rejected with an error. *)
Inductive Completion (A : Type) :=
| Resolved (a : A)
| Rejected (e : Error).
Arguments Resolved {A} a.
Arguments Rejected {A} e.

Definition M (A : Type) : Type := World → Completion A * World.

Definition ret {A} (a : A) : M A := λ w, (Resolved a, w).

Definition bind {A B} (m : M A) (k : A → M B) : M B :=
  λ w, match m w with
       | (Resolved a, w') => k a w'
       | (Rejected e, w') => (Rejected e, w')
       end.

Definition throw {A} (e : Error) : M A := λ w, (Rejected e, w).

#[global] Instance M_ret : MRet M := @ret.
#[global] Instance M_bind : MBind M := λ A B k m, bind m k.

(** [await datastore.get(key)] *)
Definition ds_get (k : Key) : M (option Entity) :=
  λ w, (Resolved (get k (store w)),
        mkWorld (store w) (trace w ++ [EvGet k]) (sent w)).

Definition ds_get_boat (k : Key) : M (option BoatData) :=
  λ w, (Resolved (get_boat (id k) (store w)),
        mkWorld (store w) (trace w ++ [EvGet k]) (sent w)).

Definition ds_get_load (k : Key) : M (option LoadData) :=
  λ w, (Resolved (get_load (id k) (store w)),
        mkWorld (store w) (trace w ++ [EvGet k]) (sent w)).

(** [await datastore.update({key, data})] *)
Definition ds_update_boat (k : Key) (d : BoatData) : M unit :=
  λ w, match update_boat (id k) d (store w) with
       | Some st' =>
           (Resolved tt, mkWorld st' (trace w ++ [EvUpdate k]) (sent w))
       | None => (Rejected (DatastoreNotFound k), w)
       end.

Definition ds_update_load (k : Key) (d : LoadData) : M unit :=
  λ w, match update_load (id k) d (store w) with
       | Some st' =>
           (Resolved tt, mkWorld st' (trace w ++ [EvUpdate k]) (sent w))
       | None => (Rejected (DatastoreNotFound k), w)
       end.

(** [await datastore.delete(key)] *)
Definition ds_delete_boat (k : Key) : M unit :=
  λ w, (Resolved tt,
        mkWorld (delete_boat (id k) (store w)) (trace w ++ [EvDelete k])
                (sent w)).

(** [res.status(code).json(body)]: the first call sends the response, a
    later one throws because the headers are already sent. *)
Definition respond (code : nat) (j : Json) : M unit :=
  λ w, match sent w with
       | None =>
           (Resolved tt, mkWorld (store w) (trace w) (Some (mkResp code j)))
       | Some _ => (Rejected HeadersSent, w)
       end.

(** Run a handler against a store. *)
Definition run {A} (m : M A) (st : Store) : Completion A * World :=
  m (init st).

End Handler.
Export Handler.

(** ** The modules [boats.js] requires that it only calls into *)

Module Imports.

(** [./helper], as [boats.js] uses it.  The functions run in the handler
    monad: they receive [res] and the Datastore client. *)
Record Helper := mkHelper {
  requestIsValid : Request → M bool;
  getBoatFromID : string → M (option BoatData);
  createBoatKey : string → Key;
  existsBoatWithSameName : option string → string → M bool;
  affixIDAndSelf : option BoatData → Request → Json;
  keysAreEqual : Key → Key → bool
}.

(** [./boat_class], as the update handlers use it: the three-argument
    constructor and the two update methods, which answer [false]
    ([None]) or change the object and answer [true]. *)
Record BoatClass := mkBoatClass {
  new_Boat : string → string → Z → BoatData;
  updateFields : ReqBody → BoatData → option BoatData;
  updateAllFields : ReqBody → BoatData → option BoatData
}.

(** What the handlers rely on when they call the two lookups of
    [./helper]: [getBoatFromID] is the point read that
    [router.get('/:boat_id')] writes inline (lines 93-94) and
    [createBoatKey] builds the key the same way. *)
Record helper_looks_up (hm : Helper) : Prop := {
  getBoatFromID_reads : ∀ i, getBoatFromID hm i = ds_get_boat (mkKey Boat i);
  createBoatKey_builds : ∀ i, createBoatKey hm i = mkKey Boat i
}.

(** [keysAreEqual] compares two keys by their identifiers. *)
Definition keys_equal_by_id (hm : Helper) : Prop :=
  ∀ a b, keysAreEqual hm a b = bool_decide (id a = id b).

(** Modelled from the spec: [helper.js] is not among the sources.  The
    uniqueness check is "a query filter over all Boat records for an exact
    name match, excluding the record being updated (by id)"; keys are
    "compared by identifier equality"; request validation is a boolean
    gate computed before the handlers run; the public projection "adds
    [id] as a string and [self] as a host-relative URI". *)
Definition helper_js : Helper := {|
  requestIsValid := λ _, mret true;
  getBoatFromID := λ i, ds_get_boat (mkKey Boat i);
  createBoatKey := λ i, mkKey Boat i;
  existsBoatWithSameName := λ n i w,
    (Resolved
       (bool_decide
          (map_Exists (λ j b, Some (b_name b) = n ∧ j ≠ i)
                      (kind_Boat (store w)))), w);
  affixIDAndSelf := λ _ _, JOther;
  keysAreEqual := λ a b, bool_decide (id a = id b)
|}.

End Imports.
Export Imports.

(** ** [boats.js]: the route handlers *)

Module Boats.

(** The identifiers [boats.js] declares (lines 11-21).  A handler can use
    these and whatever the global object holds; every other name is a
    [ReferenceError] when it is evaluated.  Node's global object has no
    property [helper] or [keysAreEqual], and a CommonJS module does not see
    the declarations of another, so this list is the scope the handlers
    run in; the handlers below take the scope as an argument so that the
    other case can be stated too. *)
Definition boats_js : list string :=
  ["Boat"; "datastore"; "express"; "router"; "h"; "m"; "validate"].

(** Evaluating the identifier [x], which denotes [v] when it is bound. *)
Definition resolve {A} (sc : list string) (x : string) (v : A) : M A :=
  if decide (x ∈ sc) then mret v else throw (ReferenceError x).

(** [boatResult.name] and the like on a lookup result that may be
    [undefined]. *)
Definition of_undefined : Error :=
  TypeError "Cannot read properties of undefined".

Definition defined {A} (o : option A) : M A :=
  match o with
  | Some a => mret a
  | None => throw of_undefined
  end.

(** [Promise.all(xs.map(async x => ...))] where each callback is one
    [await]ed call followed by synchronous code: the calls are all issued,
    in order, before any continuation runs. *)
Fixpoint mapM {A B} (f : A → M B) (xs : list A) : M (list B) :=
  match xs with
  | [] => mret []
  | x :: xs' => y ← f x; ys ← mapM f xs'; mret (y :: ys)
  end.

(** The reasons the assignment handlers give. *)
Definition already_this_boat : string :=
  "The specified load has already been assigned to this boat.".
Definition already_another_boat : string :=
  "The specified load has already been assigned to another boat.".
Definition not_on_this_boat_msg : string :=
  "The specified load is not on this boat.".

Section Routes.

(** The scope the handlers are evaluated in, and the two modules that
    are not among the sources. *)
Variable sc : list string.
Variable hm : Helper.
Variable bc : BoatClass.

(** *** GET /boats/:boat_id (lines 78-141) *)

(** The object [thisLoad] for an entity whose key is [k]. *)
Definition load_ref (req : Request) (k : Key) : LoadRef :=
  let self := protocol req +:+ "://" +:+ host req +:+ "/loads/"
              +:+ id k in
  mkLoadRef (id k) self.

(** The body of the [map] callback after its [await]. *)
Definition load_projection (req : Request) (loadResult : option Entity)
  : M LoadRef :=
  e ← defined loadResult;
  mret (load_ref req (KEY e)).

(** The boat's own [self] link. *)
Definition boat_self (req : Request) (boatKey : Key) : string :=
  protocol req +:+ "://" +:+ host req +:+ baseUrl req +:+ "/"
  +:+ id boatKey.

Definition get_boat_route (req : Request) : M unit :=
  let boat_id := boat_id req in
  if decide (boat_id = "") then
    respond 404 (JError "No boat with this boat_id exists")
  else
    let boatKey := mkKey Boat boat_id in
    boatResult ← ds_get_boat boatKey;
    match boatResult with
    | None => respond 404 (JError "No boat with this boat_id exists")
    | Some b =>
        (* boatResult[datastore.KEY] is the key that was looked up *)
        let id_ := id boatKey in
        let self := boat_self req boatKey in
        loadResults ← mapM ds_get (loads b);
        loads' ← mapM (load_projection req) loadResults;
        let newBoatResult :=
          mkBoatView id_ (b_name b) (b_type b) (b_length b) loads' self in
        respond 200 (JBoat newBoatResult)
    end.

(** *** DELETE /boats/:boat_id (lines 191-230) *)

Definition delete_boat_route (req : Request) : M unit :=
  if authenticated req then
    let boat_id := boat_id req in
    h ← resolve sc "h" hm;
    boatResult ← getBoatFromID h boat_id;
    let boatKey := createBoatKey h boat_id in
    match boatResult with
    | None => respond 403 (JError "No boat with this boat_id exists")
    | Some b =>
        if decide (owner b ≠ sub req) then
          respond 403
            (JError "This boat_id exists but you are not the owner.")
        else
          ds_delete_boat boatKey;;
          respond 204 JNothing
    end
  else
    respond 401
      (JError "You must be authenticated to perform this action.").

(** *** PUT /boats/:boat_id/loads/:load_id (lines 234-311) *)

(** The object [boat] written back (lines 277-285): the load key is
    pushed onto [boatResult.loads]; [owner] and [isPublic] are not
    copied. *)
Definition boat_with (b : BoatData) (loadKey : Key) : BoatData :=
  mkBoat (b_name b) (b_type b) (b_length b) None None
         (loads b ++ [loadKey])%list.

(** The object [load] written back (lines 295-300). *)
Definition load_on (l : LoadData) (boatKey : Key) : LoadData :=
  mkLoad (volume l) (Some boatKey) (content l) (creation_date l).

Definition put_load_route (req : Request) : M unit :=
  if authenticated req then
    let boatKey := mkKey Boat (boat_id req) in
    let loadKey := mkKey Load (load_id req) in
    boatResult ← ds_get_boat boatKey;
    loadResult ← ds_get_load loadKey;
    match boatResult, loadResult with
    | None, None =>
        respond 404 (JError "The specified boat and load does not exist")
    | None, Some _ =>
        respond 404 (JError "The specified boat does not exist")
    | Some _, None =>
        respond 404 (JError "The specified load does not exist")
    | Some b, Some l =>
        match carrier l with
        | Some c =>
            if decide (id c = id boatKey) then
              respond 403 (JError already_this_boat)
            else
              respond 403 (JError already_another_boat)
        | None =>
            let boat := boat_with b loadKey in
            ds_update_boat boatKey boat;;
            let load := load_on l boatKey in
            ds_update_load loadKey load;;
            respond 204 JNothing
        end
    end
  else mret tt.

(** *** DELETE /boats/:boat_id/loads/:load_id (lines 315-386) *)

(** [loadResult.carrier === null || !keysAreEqual(loadResult.carrier,
    boatKey)]: the right operand, and with it the identifier
    [keysAreEqual], is evaluated only when the carrier is not null. *)
Definition not_on_this_boat (l : LoadData) (boatKey : Key) : M bool :=
  match carrier l with
  | None => mret true
  | Some c =>
      eq ← resolve sc "keysAreEqual" (keysAreEqual hm);
      mret (negb (eq c boatKey))
  end.

(** The object [boat] written back (lines 352-360): the references
    whose identifier is the load's are filtered out. *)
Definition boat_without (b : BoatData) (loadKey : Key) : BoatData :=
  mkBoat (b_name b) (b_type b) (b_length b) None None
         (filter (λ element, id element ≠ id loadKey) (loads b)).

(** The object [load] written back (lines 370-375). *)
Definition load_off (l : LoadData) : LoadData :=
  mkLoad (volume l) None (content l) (creation_date l).

Definition delete_load_route (req : Request) : M unit :=
  if authenticated req then
    let boatKey := mkKey Boat (boat_id req) in
    let loadKey := mkKey Load (load_id req) in
    boatResult ← ds_get_boat boatKey;
    loadResult ← ds_get_load loadKey;
    match boatResult, loadResult with
    | None, None =>
        respond 404 (JError "The specified boat and load does not exist")
    | None, Some _ =>
        respond 404 (JError "The specified boat does not exist")
    | Some _, None =>
        respond 404 (JError "The specified load does not exist")
    | Some b, Some l =>
        off ← not_on_this_boat l boatKey;
        if (off : bool) then
          respond 403 (JError not_on_this_boat_msg)
        else
          let boat := boat_without b loadKey in
          ds_update_boat boatKey boat;;
          let load := load_off l in
          ds_update_load loadKey load;;
          respond 204 JNothing
    end
  else mret tt.

(** *** PATCH /boats/:boat_id (lines 391-440) *)

Definition patch_boat_route (req : Request) : M unit :=
  helper ← resolve sc "helper" hm;
  valid ← requestIsValid helper req;
  if negb valid then mret tt
  else
    let boat_id := boat_id req in
    helper ← resolve sc "helper" hm;
    boatResult ← getBoatFromID helper boat_id;
    helper ← resolve sc "helper" hm;
    let boatKey := createBoatKey helper boat_id in
    match boatResult with
    | None =>
        respond 404 (JError "A boat with this boat_id was not found.")
    | Some _ => mret tt
    end;;
    helper ← resolve sc "helper" hm;
    dup ← existsBoatWithSameName helper (body_name (body req)) boat_id;
    if (dup : bool) then
      respond 403 (JError "There is already a boat with this name.")
    else
      b ← defined boatResult;
      let boat := new_Boat bc (b_name b) (b_type b) (b_length b) in
      match updateFields bc (body req) boat with
      | None =>
          respond 400 (JError
            "No properties of the boat were included in the body of the request.")
      | Some boat' =>
          ds_update_boat boatKey boat';;
          helper ← resolve sc "helper" hm;
          boatResult ← getBoatFromID helper boat_id;
          helper ← resolve sc "helper" hm;
          respond 200 (affixIDAndSelf helper boatResult req)
      end.

(** *** PUT /boats/:boat_id (lines 454-499); the [Location] header is
    not part of [Response]. *)

Definition put_boat_route (req : Request) : M unit :=
  helper ← resolve sc "helper" hm;
  valid ← requestIsValid helper req;
  if negb valid then mret tt
  else
    let boat_id := boat_id req in
    helper ← resolve sc "helper" hm;
    boatResult ← getBoatFromID helper boat_id;
    helper ← resolve sc "helper" hm;
    let boatKey := createBoatKey helper boat_id in
    match boatResult with
    | None =>
        respond 404 (JError "A boat with this boat_id was not found.")
    | Some _ => mret tt
    end;;
    helper ← resolve sc "helper" hm;
    dup ← existsBoatWithSameName helper (body_name (body req)) boat_id;
    if (dup : bool) then
      respond 403 (JError "There is already a boat with this name.")
    else
      b ← defined boatResult;
      let boat := new_Boat bc (b_name b) (b_type b) (b_length b) in
      match updateAllFields bc (body req) boat with
      | Some boat' =>
          ds_update_boat boatKey boat';;
          helper ← resolve sc "helper" hm;
          boatResult ← getBoatFromID helper boat_id;
          helper ← resolve sc "helper" hm;
          let _ := affixIDAndSelf helper boatResult req in
          respond 303 JNothing
      | None =>
          respond 400 (JError
            "PUTs at this endpoint require that all fields are updated. Use PATCH for partial updates.")
      end.

End Routes.

(** *** PATCH /boats (lines 445-449) and PUT /boats (lines 504-508) *)

Definition patch_all_route (req : Request) : M unit :=
  let code := 405 in
  let error := JError "You cannot update all boats." in
  respond code error.

Definition put_all_route (req : Request) : M unit :=
  let code := 405 in
  let error := JError "You cannot update all boats." in
  respond code error.

End Boats.
Export Boats.

(** ** The vocabulary of the specification *)

Module Spec.

(** The outcomes of the assignment operations, read off what the handler
    did: the status of the response it sent, that it sent none, or the
    error its promise was rejected with. *)
Inductive Outcome :=
| Success                              (* 204, no body *)
| NotFound (which : string)            (* 404 *)
| Conflict (reason : string)           (* 403 *)
| Unauthenticated (reason : string)    (* 401 *)
| OtherResponse (r : Response)
| NoResponse                           (* the handler returned silently *)
| Crashed (e : Error).

Definition outcome_of_response (r : Response) : Outcome :=
  match json r with
  | JNothing => if decide (status r = 204) then Success else OtherResponse r
  | JError msg =>
      if decide (status r = 404) then NotFound msg
      else if decide (status r = 403) then Conflict msg
      else if decide (status r = 401) then Unauthenticated msg
      else OtherResponse r
  | _ => OtherResponse r
  end.

Definition outcome (res : Completion unit * World) : Outcome :=
  match res with
  | (Rejected e, _) => Crashed e
  | (Resolved _, w) =>
      match sent w with
      | Some r => outcome_of_response r
      | None => NoResponse
      end
  end.

(** The store a handler leaves behind. *)
Definition after (res : Completion unit * World) : Store := store (res.2).

(** One side of the relationship: a Load with a carrier is listed by the
    Boat the carrier names. *)
Definition load_listed (st : Store) (i : string) (l : LoadData) : Prop :=
  ∀ c, carrier l = Some c →
    kind c = Boat ∧
    ∃ b, kind_Boat st !! id c = Some b ∧ mkKey Load i ∈ loads b.

(** The other side: every reference in a Boat's [loads] names a Load
    whose carrier is that Boat. *)
Definition boat_lists (st : Store) (j : string) (b : BoatData) : Prop :=
  ∀ k, k ∈ loads b →
    kind k = Load ∧
    ∃ l, kind_Load st !! id k = Some l ∧ carrier l = Some (mkKey Boat j).

(** The central two-sided invariant. *)
Definition consistent (st : Store) : Prop :=
  map_Forall (load_listed st) (kind_Load st)
  ∧ map_Forall (boat_lists st) (kind_Boat st).

#[global] Instance load_listed_dec st i l : Decision (load_listed st i l).
Proof.
  unfold load_listed. destruct (carrier l) as [c|].
  - destruct (decide (kind c = Boat)) as [Hk|Hk].
    + destruct (kind_Boat st !! id c) as [b|] eqn:Hb.
      * destruct (decide (mkKey Load i ∈ loads b)) as [Hin|Hin].
        -- left. intros c' [= <-]. eauto.
        -- right. intros H. destruct (H c eq_refl) as [_ (b' & Hb' & ?)].
           congruence.
      * right. intros H. destruct (H c eq_refl) as [_ (b' & ? & _)].
        congruence.
    + right. intros H. destruct (H c eq_refl) as [? _]. done.
  - left. intros c [=].
Defined.

Definition ref_ok (st : Store) (j : string) (k : Key) : Prop :=
  kind k = Load ∧
  ∃ l, kind_Load st !! id k = Some l ∧ carrier l = Some (mkKey Boat j).

#[global] Instance ref_ok_dec st j k : Decision (ref_ok st j k).
Proof.
  unfold ref_ok. destruct (decide (kind k = Load)) as [Hk|Hk].
  - destruct (kind_Load st !! id k) as [l|] eqn:Hl.
    + destruct (decide (carrier l = Some (mkKey Boat j))) as [Hc|Hc].
      * left. eauto.
      * right. intros [_ (l' & Hl' & ?)]. congruence.
    + right. intros [_ (l' & ? & _)]. congruence.
  - right. intros [? _]. done.
Defined.

#[global] Instance boat_lists_dec st j b : Decision (boat_lists st j b).
Proof.
  destruct (decide (Forall (ref_ok st j) (loads b))) as [H|H].
  - left. intros k Hk. rewrite Forall_forall in H. exact (H k Hk).
  - right. intros Hb. apply H, Forall_forall. exact Hb.
Defined.

#[global] Instance consistent_dec st : Decision (consistent st).
Proof. unfold consistent. apply _. Defined.

(** The keys of the [datastore.update] calls of a trace, in order. *)
Definition updates (t : list Event) : list Key :=
  omap (λ e, match e with EvUpdate k => Some k | _ => None end) t.

End Spec.
Export Spec.

(** ** Concrete stores and requests used in the examples *)

Module Fixtures.

Definition orca : BoatData :=
  mkBoat "Orca" "sloop" 30 (Some "u1") (Some true) [].

Definition heron : BoatData :=
  mkBoat "Heron" "yawl" 25 (Some "u1") (Some false) [].

Definition crate : LoadData := mkLoad 5 None "fish" "06/01/2021".

(** Boats 1 and 2, Load 9, nothing assigned. *)
Definition st_unassigned : Store :=
  mkStore (<["1" := orca]> (<["2" := heron]> ∅)) (<["9" := crate]> ∅).

(** Boat 1 still has its owner and carries Load 9. *)
Definition st_loaded : Store :=
  mkStore
    (<["1" := mkBoat "Orca" "sloop" 30 (Some "u1") (Some true)
                     [mkKey Load "9"]]> ∅)
    (<["9" := mkLoad 5 (Some (mkKey Boat "1")) "fish" "06/01/2021"]> ∅).

(** Load 9 is on Boat 2, as the assign handler writes the two records;
    Boat 1 is empty. *)
Definition st_on_heron : Store :=
  mkStore
    (<["1" := orca]>
       (<["2" := mkBoat "Heron" "yawl" 25 None None [mkKey Load "9"]]> ∅))
    (<["9" := mkLoad 5 (Some (mkKey Boat "2")) "fish" "06/01/2021"]> ∅).

(** Boat 1 lists Load 9, whose record is gone. *)
Definition st_dangling : Store :=
  mkStore
    (<["1" := mkBoat "Orca" "sloop" 30 (Some "u1") (Some true)
                     [mkKey Load "9"]]> ∅)
    ∅.

Definition request (auth : bool) (boat load : string) : Request :=
  mkReq auth (if auth then Some "u1" else None) "https" "api.example"
        "/boats" boat load (mkBody None None None).

Definition boat_class : BoatClass :=
  mkBoatClass (λ n t l, mkBoat n t l None None [])
              (λ _ b, Some b) (λ _ b, Some b).

End Fixtures.
Export Fixtures.

(** ** Sequences of requests to the router *)

Module Sessions.

(** The routes of [boats.js] that are modelled above. *)
Inductive Route :=
| GetBoat          (* GET /boats/:boat_id *)
| DeleteBoat       (* DELETE /boats/:boat_id *)
| PutLoad          (* PUT /boats/:boat_id/loads/:load_id *)
| DeleteLoad       (* DELETE /boats/:boat_id/loads/:load_id *)
| PatchBoat        (* PATCH /boats/:boat_id *)
| PutBoat          (* PUT /boats/:boat_id *)
| PatchAll         (* PATCH /boats *)
| PutAll.          (* PUT /boats *)

Section Dispatch.

Variable sc : list string.
Variable hm : Helper.
Variable bc : BoatClass.

Definition handler (r : Route) : Request → M unit :=
  match r with
  | GetBoat => get_boat_route
  | DeleteBoat => delete_boat_route sc hm
  | PutLoad => put_load_route
  | DeleteLoad => delete_load_route sc hm
  | PatchBoat => patch_boat_route sc hm bc
  | PutBoat => put_boat_route sc hm bc
  | PatchAll => patch_all_route
  | PutAll => put_all_route
  end.

(** One request: the handler runs against the store with a fresh response
    object, and the store it leaves is what the next request sees. *)
Definition serve (st : Store) (call : Route * Request) : Store :=
  after (run (handler call.1 call.2) st).

(** Requests served one after the other. *)
Definition session (st : Store) (calls : list (Route * Request)) : Store :=
  foldl serve st calls.

End Dispatch.

(** What a later store has kept of an earlier one: the same Loads, no new
    Boat, every assigned Load untouched, and of every Load its descriptive
    attributes. *)
Definition loads_kept (st st' : Store) : Prop :=
  dom (kind_Load st') = dom (kind_Load st)
  ∧ dom (kind_Boat st') ⊆ dom (kind_Boat st)
  ∧ (∀ i l, kind_Load st !! i = Some l → carrier l ≠ None →
       kind_Load st' !! i = Some l)
  ∧ (∀ i l, kind_Load st !! i = Some l →
       ∃ l', kind_Load st' !! i = Some l'
             ∧ volume l' = volume l ∧ content l' = content l
             ∧ creation_date l' = creation_date l).

(** Every Boat that lists a Load has no [owner] property: the shape in
    which the assign handler writes a Boat. *)
Definition loaded_boats_ownerless (st : Store) : Prop :=
  map_Forall (λ _ b, loads b ≠ [] → owner b = None) (kind_Boat st).

(** An authenticated request carries the principal of its caller. *)
Definition has_principal (call : Route * Request) : Prop :=
  authenticated call.2 = true → sub call.2 ≠ None.

End Sessions.
Export Sessions.

(** ** [user_class.js] *)

Module UserClass.

(** [new Date()], as far as [_dateNow] reads it: day of the month, month
    counted from 0, and year. *)
Record Date := mkDate { getDate : nat; getMonth : nat; getFullYear : nat }.

(** The first [n] characters of [pad] repeated for ever, starting inside
    one repetition at [cur]. *)
Fixpoint filler (n : nat) (pad cur : string) : string :=
  match n with
  | 0 => ""
  | S n' =>
      match cur with
      | String c rest => String c (filler n' pad rest)
      | EmptyString =>
          match pad with
          | String c rest => String c (filler n' pad rest)
          | EmptyString => ""
          end
      end
  end.

(** [s.padStart(targetLength, padString)] *)
Definition padStart (targetLength : nat) (padString : string) (s : string)
  : string :=
  if decide (targetLength ≤ String.length s)%nat then s
  else filler (targetLength - String.length s) padString padString +:+ s.

(** [_dateNow()] (lines 80-88), for the date [today]; [String(n)] and the
    conversion of [yyyy] by [+] are the decimal numeral. *)
Definition _dateNow (today : Date) : string :=
  let dd := padStart 2 "0" (pretty (getDate today)) in
  let mm := padStart 2 "0" (pretty (getMonth today + 1)) in
  let yyyy := getFullYear today in
  mm +:+ "/" +:+ dd +:+ "/" +:+ pretty yyyy.

(** The [data] argument of the constructor.  It is either an entity read
    from the store (with [datastore.KEY], [first_name], [last_name],
    [account_created]) or the profile of a first login (with [firstName],
    [lastName]); the constructor reads whichever properties its flag
    selects, so every property may be missing ([None]). *)
Record CtorData := mkCtorData {
  d_KEY : option string;             (* data[datastore.KEY].id *)
  d_sub : option string;
  d_first_name : option string;
  d_last_name : option string;
  d_account_created : option string;
  d_firstName : option string;
  d_lastName : option string
}.

(** A [User] object.  [None] is [null] or [undefined]; the [key] is the
    entity's key ([Some id]) or the incomplete key [datastore.key('User')]
    ([None]). *)
Record User := mkUser {
  u_id : option string;
  u_sub : option string;
  u_first_name : option string;
  u_last_name : option string;
  u_account_created : option string;
  u_key : option string;
  u_self : option string
}.

(** What the class can throw. *)
Inductive Exception :=
| PropertyOfUndefined          (* data[datastore.KEY].id without a key *)
| PropertyOfNull               (* request.protocol without a request *)
| AlreadyExists (k : string).  (* insert of an entity that exists *)

(** The constructor (lines 25-47).  [request] defaults to [null] and
    [gDatastore] to [false]; reading a property of a missing key or of a
    null request throws. *)
Definition construct (today : Date) (data : CtorData)
    (request : option Request) (gDatastore : bool) : Exception + User :=
  if gDatastore then
    match d_KEY data with
    | None => inl PropertyOfUndefined
    | Some k =>
        match request with
        | None => inl PropertyOfNull
        | Some req =>
            inr {| u_id := Some k;
                   u_sub := d_sub data;
                   u_first_name := d_first_name data;
                   u_last_name := d_last_name data;
                   u_account_created := d_account_created data;
                   u_key := Some k;
                   u_self :=
                     Some (protocol req +:+ "://" +:+ host req +:+ "/users/"
                           +:+ default "undefined" (d_sub data)) |}
        end
    end
  else
    inr {| u_id := None;
           u_sub := d_sub data;
           u_first_name := d_firstName data;
           u_last_name := d_lastName data;
           u_account_created := Some (_dateNow today);
           u_key := None;
           u_self := None |}.

(** The object [getUser()] returns (lines 69-78). *)
Record UserView := mkUserView {
  uv_id : option string;
  uv_sub : option string;
  uv_first_name : option string;
  uv_last_name : option string;
  uv_account_created : option string;
  uv_self : option string
}.

Definition getUser (u : User) : UserView :=
  mkUserView (u_id u) (u_sub u) (u_first_name u) (u_last_name u)
             (u_account_created u) (u_self u).

(** The data of a stored User entity: what [insert] puts under [data]
    (lines 54-59). *)
Record UserData := mkUserData {
  sd_sub : option string;
  sd_first_name : option string;
  sd_last_name : option string;
  sd_account_created : option string
}.

(** An entity of kind User as [datastore.get] returns it. *)
Definition entity (k : string) (d : UserData) : CtorData :=
  mkCtorData (Some k) (sd_sub d) (sd_first_name d) (sd_last_name d)
             (sd_account_created d) None None.

(** A calendar date as [new Date()] reports one, with a four-digit
    year. *)
Definition calendar (t : Date) : Prop :=
  (1 ≤ getDate t ≤ 31)%nat ∧ (getMonth t ≤ 11)%nat
  ∧ (1000 ≤ Z.of_nat (getFullYear t) ≤ 9999)%Z.

Section Insert.

(** The identifier the store assigns to an entity inserted under an
    incomplete key. *)
Variable allocateId : gmap string UserData → string.

(** [await datastore.insert(entity)] on the table of kind User: under an
    incomplete key the store assigns an identifier; under a complete key
    the insert is refused when the entity exists. *)
Definition ds_insert (key : option string) (d : UserData)
    (users : gmap string UserData) : Exception + gmap string UserData :=
  match key with
  | None => inr (<[allocateId users := d]> users)
  | Some k =>
      match users !! k with
      | Some _ => inl (AlreadyExists k)
      | None => inr (<[k := d]> users)
      end
  end.

(** [insert()] (lines 49-64). *)
Definition insert (u : User) (users : gmap string UserData)
  : Exception + gmap string UserData :=
  let entity_data :=
    mkUserData (u_sub u) (u_first_name u) (u_last_name u)
               (u_account_created u) in
  ds_insert (u_key u) entity_data users.

End Insert.

End UserClass.
Export UserClass.

(** ** More concrete stores, requests and users *)

Module Examples.

Definition barrel : LoadData := mkLoad 2 None "oil" "06/02/2021".

(** Boats 1 and 2, Loads 8 and 9, nothing assigned. *)
Definition st_two_loads : Store :=
  mkStore (<["1" := orca]> (<["2" := heron]> ∅))
          (<["8" := barrel]> (<["9" := crate]> ∅)).

(** A caller other than the owner of the fixture boats. *)
Definition stranger (boat load : string) : Request :=
  mkReq true (Some "u2") "https" "api.example" "/boats" boat load
        (mkBody None None None).

(** 5 June 2021: [getMonth] counts from 0. *)
Definition june5 : Date := mkDate 5 5 2021.

(** The profile of a first login. *)
Definition profile : CtorData :=
  mkCtorData None (Some "202084202") None None None
             (Some "George") (Some "Kochera").

(** An allocator of identifiers that are not in use. *)
Definition next_id (users : gmap string UserData) : string :=
  fresh_string "5629499534213120" users.

(** One registered user. *)
Definition registered : gmap string UserData :=
  <["5629499534213120" :=
      mkUserData (Some "202084202") (Some "George") (Some "Kochera")
                 (Some "06/05/2021")]> ∅.

End Examples.
Export Examples.

(** ** Identifiers in requests *)

Module Identifiers.

(** An identifier as the store spells it: the decimal numeral of a
    positive int64.  The client sends [datastore.int(id)] to the store as
    an int64, and the keys the store returns carry this spelling.  The
    tables above are addressed by spelling, so they answer a lookup as
    the store does when the request spells its identifier this way; a
    request for [/boats/01] reaches Boat 1 in the store and is not
    described by a lookup of ["01"]. *)
Definition store_spelled (s : string) : Prop :=
  ∃ n : N, (0 < n < 2 ^ 63)%N ∧ s = pretty n.

End Identifiers.
Export Identifiers.

(** ** Running the monad *)

Lemma run_bind {A B} (m : M A) (k : A → M B) (w : World) :
  (m ≫= k) w = match m w with
                | (Resolved a, w') => k a w'
                | (Rejected e, w') => (Rejected e, w')
                end.
Proof. reflexivity. Qed.

Lemma resolve_bound {A} sc x (v : A) w :
  x ∈ sc → resolve sc x v w = (Resolved v, w).
Proof. intros H. unfold resolve. by rewrite decide_True. Qed.

Lemma resolve_unbound {A} sc x (v : A) w :
  x ∉ sc → resolve sc x v w = (Rejected (ReferenceError x), w).
Proof. intros H. unfold resolve. by rewrite decide_False. Qed.

Lemma helper_not_declared : "helper" ∉ boats_js.
Proof. by apply (bool_decide_unpack _). Qed.

Lemma keysAreEqual_not_declared : "keysAreEqual" ∉ boats_js.
Proof. by apply (bool_decide_unpack _). Qed.

Lemma h_declared : "h" ∈ boats_js.
Proof. by apply (bool_decide_unpack _). Qed.

(** Unfold the monad and the store calls of a handler applied to a
    world. *)
Ltac step :=
  unfold mbind, M_bind, bind, mret, M_ret, ret, throw, defined,
    ds_get_boat, ds_get_load, ds_get, get_boat, get_load,
    ds_update_boat, ds_update_load, update_boat, update_load,
    ds_delete_boat, respond in *;
  cbn in *.

(** ** Assignment *)

(** The four ways PUT /boats/:boat_id/loads/:load_id runs. *)

Lemma put_load_unauthenticated req st :
  authenticated req = false →
  run (put_load_route req) st = (Resolved tt, init st).
Proof. intros H. unfold run, put_load_route. by rewrite H. Qed.

Lemma put_load_free req st b l :
  authenticated req = true →
  kind_Boat st !! boat_id req = Some b →
  kind_Load st !! load_id req = Some l →
  carrier l = None →
  let boatKey := mkKey Boat (boat_id req) in
  let loadKey := mkKey Load (load_id req) in
  run (put_load_route req) st =
    (Resolved tt,
     mkWorld
       (mkStore (<[boat_id req := boat_with b loadKey]> (kind_Boat st))
                (<[load_id req := load_on l boatKey]> (kind_Load st)))
       [EvGet boatKey; EvGet loadKey; EvUpdate boatKey; EvUpdate loadKey]
       (Some (mkResp 204 JNothing))).
Proof.
  intros Hauth Hb Hl Hc.
  unfold run, init, put_load_route. rewrite Hauth. step.
  rewrite Hb, Hl, Hc. step. rewrite Hb. step. rewrite Hl. reflexivity.
Qed.

Lemma put_load_taken req st b l c :
  authenticated req = true →
  kind_Boat st !! boat_id req = Some b →
  kind_Load st !! load_id req = Some l →
  carrier l = Some c →
  run (put_load_route req) st =
    (Resolved tt,
     mkWorld st
       [EvGet (mkKey Boat (boat_id req)); EvGet (mkKey Load (load_id req))]
       (Some (mkResp 403
                (JError (if decide (id c = boat_id req)
                         then already_this_boat
                         else already_another_boat))))).
Proof.
  intros Hauth Hb Hl Hc.
  unfold run, init, put_load_route. rewrite Hauth. step.
  rewrite Hb, Hl, Hc. step. by destruct (decide (id c = boat_id req)).
Qed.

Lemma put_load_missing req st :
  authenticated req = true →
  kind_Boat st !! boat_id req = None ∨ kind_Load st !! load_id req = None →
  ∃ which,
    run (put_load_route req) st =
      (Resolved tt,
       mkWorld st
         [EvGet (mkKey Boat (boat_id req)); EvGet (mkKey Load (load_id req))]
         (Some (mkResp 404 (JError which)))).
Proof.
  intros Hauth Hm.
  unfold run, init, put_load_route. rewrite Hauth. step.
  destruct (kind_Boat st !! boat_id req), (kind_Load st !! load_id req);
    step; [by destruct Hm| eauto..].
Qed.

(** The store [st_on_heron] is the one [Assign(2, 9)] leaves. *)
Lemma st_on_heron_reached :
  run (put_load_route (request true "2" "9")) st_unassigned
  = (Resolved tt,
     mkWorld st_on_heron
       [EvGet (mkKey Boat "2"); EvGet (mkKey Load "9");
        EvUpdate (mkKey Boat "2"); EvUpdate (mkKey Load "9")]
       (Some (mkResp 204 JNothing))).
Proof. vm_compute. reflexivity. Qed.

(** C1: when the caller is authenticated, both records exist and the
    Load's carrier is null, PUT /boats/:boat_id/loads/:load_id succeeds
    (204) and leaves a stored Load whose carrier is the Boat's key and a
    stored Boat whose loads end with the Load's key. *)
Theorem assign_links_both_sides (req : Request) (st : Store)
    (b : BoatData) (l : LoadData) :
  authenticated req = true →
  kind_Boat st !! boat_id req = Some b →
  kind_Load st !! load_id req = Some l →
  carrier l = None →
  ∃ w b' l',
    run (put_load_route req) st = (Resolved tt, w)
    ∧ sent w = Some (mkResp 204 JNothing)
    ∧ kind_Boat (store w) !! boat_id req = Some b'
    ∧ loads b' = (loads b ++ [mkKey Load (load_id req)])%list
    ∧ mkKey Load (load_id req) ∈ loads b'
    ∧ kind_Load (store w) !! load_id req = Some l'
    ∧ carrier l' = Some (mkKey Boat (boat_id req)).
Proof.
  intros Hauth Hb Hl Hc.
  eexists _, _, _. split; [by apply (put_load_free req st b l)|]. cbn.
  split; [reflexivity|].
  rewrite !lookup_insert_eq.
  repeat split; try reflexivity.
  cbn. apply elem_of_app. right. apply list_elem_of_singleton. reflexivity.
Qed.

(** The concrete scenario of the specification: Boat 1 "Orca" with no
    loads, Load 9 unassigned, [Assign(1, 9)]. *)
Lemma assign_links_both_sides_witness :
  ∃ w b' l',
    run (put_load_route (request true "1" "9")) st_unassigned
      = (Resolved tt, w)
    ∧ sent w = Some (mkResp 204 JNothing)
    ∧ kind_Boat (store w) !! "1" = Some b'
    ∧ loads b' = [mkKey Load "9"]
    ∧ mkKey Load "9" ∈ loads b'
    ∧ kind_Load (store w) !! "9" = Some l'
    ∧ carrier l' = Some (mkKey Boat "1").
Proof.
  apply (assign_links_both_sides (request true "1" "9") st_unassigned
           orca crate); reflexivity.
Defined.

(** How the assign handler words its refusal (line 263).  For an
    authenticated call that finds both records under the identifiers as
    the request spells them: when the Load's carrier is not null the call
    answers 403 and writes nothing, the reason being "already assigned to
    this boat" when the carrier's identifier is, as a string, the
    [boat_id] of the request and "already assigned to another boat"
    otherwise; and when the carrier is null, so that the call succeeds,
    the same call made again right after answers 403 "already assigned to
    this boat".  The comparison is between the spelling the store returns
    and the spelling of the URL. *)
Lemma assign_not_idempotent (req : Request) (st : Store)
    (b : BoatData) (l : LoadData) :
  authenticated req = true →
  kind_Boat st !! boat_id req = Some b →
  kind_Load st !! load_id req = Some l →
  (∀ c, carrier l = Some c →
     let res := run (put_load_route req) st in
     after res = st
     ∧ updates (trace res.2) = []
     ∧ outcome res =
         Conflict (if decide (id c = boat_id req)
                   then already_this_boat else already_another_boat))
  ∧ (carrier l = None →
     let first := run (put_load_route req) st in
     let second := run (put_load_route req) (after first) in
     outcome first = Success
     ∧ outcome second = Conflict already_this_boat
     ∧ after second = after first).
Proof.
  intros Hauth Hb Hl. split.
  - intros c Hc. cbn zeta. rewrite (put_load_taken req st b l c) by done.
    repeat split.
  - intros Hc. cbn zeta. rewrite (put_load_free req st b l) by done.
    unfold after. cbn [snd store].
    erewrite (put_load_taken req _ _ _ (mkKey Boat (boat_id req)));
      [ | done | apply lookup_insert_eq | apply lookup_insert_eq | done ].
    cbn [id]. rewrite decide_True by done. repeat split.
Qed.

(** Load 9 on Boat 2, [Assign(1, 9)]: "another boat"; Load 9 free,
    [Assign(1, 9)] twice: "this boat". *)
Lemma assign_not_idempotent_example :
  outcome (run (put_load_route (request true "1" "9")) st_on_heron)
    = Conflict already_another_boat
  ∧ outcome
      (run (put_load_route (request true "1" "9"))
           (after (run (put_load_route (request true "1" "9"))
                       st_unassigned)))
    = Conflict already_this_boat.
Proof.
  split.
  - apply (proj1 (assign_not_idempotent (request true "1" "9") st_on_heron
                    orca
                    (mkLoad 5 (Some (mkKey Boat "2")) "fish" "06/01/2021")
                    eq_refl eq_refl eq_refl) (mkKey Boat "2") eq_refl).
  - apply (proj2 (assign_not_idempotent (request true "1" "9")
                    st_unassigned orca crate eq_refl eq_refl eq_refl)
             eq_refl).
Defined.

(** ** Unassignment *)

(** The ways DELETE /boats/:boat_id/loads/:load_id runs. *)

Lemma delete_load_unauthenticated sc hm req st :
  authenticated req = false →
  run (delete_load_route sc hm req) st = (Resolved tt, init st).
Proof. intros H. unfold run, delete_load_route. by rewrite H. Qed.

Lemma delete_load_null_carrier sc hm req st b l :
  authenticated req = true →
  kind_Boat st !! boat_id req = Some b →
  kind_Load st !! load_id req = Some l →
  carrier l = None →
  run (delete_load_route sc hm req) st =
    (Resolved tt,
     mkWorld st
       [EvGet (mkKey Boat (boat_id req)); EvGet (mkKey Load (load_id req))]
       (Some (mkResp 403 (JError not_on_this_boat_msg)))).
Proof.
  intros Hauth Hb Hl Hc.
  unfold run, init, delete_load_route, not_on_this_boat. rewrite Hauth. step.
  rewrite Hb, Hl, Hc. reflexivity.
Qed.

(** With a carrier, the handler evaluates [keysAreEqual]; where that name
    is not bound the handler's promise is rejected before any response or
    write. *)
Lemma delete_load_carrier_unbound sc hm req st b l c :
  "keysAreEqual" ∉ sc →
  authenticated req = true →
  kind_Boat st !! boat_id req = Some b →
  kind_Load st !! load_id req = Some l →
  carrier l = Some c →
  run (delete_load_route sc hm req) st =
    (Rejected (ReferenceError "keysAreEqual"),
     mkWorld st
       [EvGet (mkKey Boat (boat_id req)); EvGet (mkKey Load (load_id req))]
       None).
Proof.
  intros Hsc Hauth Hb Hl Hc.
  unfold run, init, delete_load_route, not_on_this_boat. rewrite Hauth. step.
  rewrite Hb, Hl, Hc. step. by rewrite resolve_unbound.
Qed.

(** Had the name been bound to a comparison by identifier, the two
    remaining cases would run as follows. *)
Lemma delete_load_elsewhere_bound sc hm req st b l c :
  "keysAreEqual" ∈ sc → keys_equal_by_id hm →
  authenticated req = true →
  kind_Boat st !! boat_id req = Some b →
  kind_Load st !! load_id req = Some l →
  carrier l = Some c → id c ≠ boat_id req →
  run (delete_load_route sc hm req) st =
    (Resolved tt,
     mkWorld st
       [EvGet (mkKey Boat (boat_id req)); EvGet (mkKey Load (load_id req))]
       (Some (mkResp 403 (JError not_on_this_boat_msg)))).
Proof.
  intros Hsc Hkeq Hauth Hb Hl Hc Hne.
  unfold run, init, delete_load_route, not_on_this_boat. rewrite Hauth. step.
  rewrite Hb, Hl, Hc. step. rewrite resolve_bound by done.
  rewrite Hkeq. cbn. by rewrite bool_decide_eq_false_2.
Qed.

Lemma delete_load_here_bound sc hm req st b l c :
  "keysAreEqual" ∈ sc → keys_equal_by_id hm →
  authenticated req = true →
  kind_Boat st !! boat_id req = Some b →
  kind_Load st !! load_id req = Some l →
  carrier l = Some c → id c = boat_id req →
  let boatKey := mkKey Boat (boat_id req) in
  let loadKey := mkKey Load (load_id req) in
  run (delete_load_route sc hm req) st =
    (Resolved tt,
     mkWorld
       (mkStore (<[boat_id req := boat_without b loadKey]> (kind_Boat st))
                (<[load_id req := load_off l]> (kind_Load st)))
       [EvGet boatKey; EvGet loadKey; EvUpdate boatKey; EvUpdate loadKey]
       (Some (mkResp 204 JNothing))).
Proof.
  intros Hsc Hkeq Hauth Hb Hl Hc He.
  unfold run, init, delete_load_route, not_on_this_boat. rewrite Hauth. step.
  rewrite Hb, Hl, Hc. step. rewrite resolve_bound by done.
  rewrite Hkeq. cbn. rewrite bool_decide_eq_true_2 by done. cbn.
  rewrite Hb. step. rewrite Hl. reflexivity.
Qed.

Lemma delete_load_missing sc hm req st :
  authenticated req = true →
  kind_Boat st !! boat_id req = None ∨ kind_Load st !! load_id req = None →
  ∃ which,
    run (delete_load_route sc hm req) st =
      (Resolved tt,
       mkWorld st
         [EvGet (mkKey Boat (boat_id req)); EvGet (mkKey Load (load_id req))]
         (Some (mkResp 404 (JError which)))).
Proof.
  intros Hauth Hm.
  unfold run, init, delete_load_route. rewrite Hauth. step.
  destruct (kind_Boat st !! boat_id req), (kind_Load st !! load_id req);
    step; [by destruct Hm| eauto..].
Qed.

(** Had [keysAreEqual] been bound to a comparison by identifier, assigning,
    unassigning and assigning to another boat would succeed at every step,
    the unassignment leaving the Load without carrier and the first Boat
    without a reference to it. *)
Lemma reassign_round_trip_when_bound sc hm req1 req2 st b1 b2 l :
  "keysAreEqual" ∈ sc → keys_equal_by_id hm →
  authenticated req1 = true → authenticated req2 = true →
  load_id req2 = load_id req1 → boat_id req2 ≠ boat_id req1 →
  kind_Boat st !! boat_id req1 = Some b1 →
  kind_Boat st !! boat_id req2 = Some b2 →
  kind_Load st !! load_id req1 = Some l →
  carrier l = None →
  let r1 := run (put_load_route req1) st in
  let r2 := run (delete_load_route sc hm req1) (after r1) in
  let r3 := run (put_load_route req2) (after r2) in
  outcome r1 = Success ∧ outcome r2 = Success ∧ outcome r3 = Success
  ∧ (∃ b l', kind_Boat (after r2) !! boat_id req1 = Some b
             ∧ (mkKey Load (load_id req1) ∉ loads b)
             ∧ kind_Load (after r2) !! load_id req1 = Some l'
             ∧ carrier l' = None).
Proof.
  intros Hsc Hkeq Ha1 Ha2 Hl21 Hb21 Hb1 Hb2 Hl Hc. cbn zeta.
  unfold after.
  rewrite (put_load_free req1 st b1 l) by done. cbn [snd store].
  rewrite (delete_load_here_bound sc hm req1 _
             (boat_with b1 (mkKey Load (load_id req1)))
             (load_on l (mkKey Boat (boat_id req1)))
             (mkKey Boat (boat_id req1)))
    by (done || apply lookup_insert_eq).
  cbn [snd store].
  rewrite (put_load_free req2 _ b2
             (load_off (load_on l (mkKey Boat (boat_id req1))))).
  - repeat split.
    eexists _, _. cbn [kind_Boat kind_Load]. rewrite !lookup_insert_eq.
    repeat split.
    cbn. intros Hin. apply list_elem_of_filter in Hin as [Hne _].
    by apply Hne.
  - done.
  - cbn [kind_Boat]. by rewrite !lookup_insert_ne.
  - cbn [kind_Load]. rewrite Hl21. apply lookup_insert_eq.
  - done.
Qed.

(** C4: an unauthenticated Assign or Unassign gets no response at all: the
    handlers return without calling [res], where the sibling handler for
    DELETE /boats/:boat_id answers 401 with a reason. *)
Theorem unauthenticated_assignment_is_silent :
  outcome (run (put_load_route (request false "1" "9")) st_unassigned)
    = NoResponse
  ∧ outcome (run (delete_load_route boats_js helper_js
                    (request false "2" "9")) st_on_heron)
    = NoResponse
  ∧ outcome (run (delete_boat_route boats_js helper_js
                    (request false "1" "9")) st_unassigned)
    = Unauthenticated "You must be authenticated to perform this action.".
Proof. repeat split. Qed.

(** C5: Load 9 is on Boat 2 and an authenticated caller unassigns it from
    Boat 1: the handler's promise is rejected with a ReferenceError for
    [keysAreEqual]; no Conflict is reported, nothing is sent, nothing is
    written. *)
Theorem unassign_from_other_boat_throws :
  let res := run (delete_load_route boats_js helper_js
                    (request true "1" "9")) st_on_heron in
  outcome res = Crashed (ReferenceError "keysAreEqual")
  ∧ sent res.2 = None
  ∧ after res = st_on_heron.
Proof. repeat split. Qed.

(** C6: Boats 1 and 2, Load 9 free.  [Assign(1, 9)] succeeds;
    [Unassign(1, 9)] is rejected with a ReferenceError for [keysAreEqual]
    and leaves the store as the assignment left it; [Assign(2, 9)] then
    fails with Conflict "already assigned to another boat". *)
Theorem reassign_round_trip_fails :
  let r1 := run (put_load_route (request true "1" "9")) st_unassigned in
  let r2 := run (delete_load_route boats_js helper_js
                   (request true "1" "9")) (after r1) in
  let r3 := run (put_load_route (request true "2" "9")) (after r2) in
  outcome r1 = Success
  ∧ outcome r2 = Crashed (ReferenceError "keysAreEqual")
  ∧ after r2 = after r1
  ∧ outcome r3 = Conflict already_another_boat.
Proof. repeat split. Qed.

(** ** Order of the writes *)

(** C7: whatever the scope and the helper module, the assign handler and
    the unassign handler either call [datastore.update] not at all or call
    it exactly twice, first with the Boat's key and then with the Load's;
    and a run that ends with 204 is of the second sort. *)
Theorem boat_written_before_load sc hm (req : Request) (st : Store) :
  let boatKey := mkKey Boat (boat_id req) in
  let loadKey := mkKey Load (load_id req) in
  let writes_in_order (res : Completion unit * World) :=
    (updates (trace res.2) = [] ∧ sent res.2 ≠ Some (mkResp 204 JNothing))
    ∨ (updates (trace res.2) = [boatKey; loadKey]
       ∧ sent res.2 = Some (mkResp 204 JNothing)) in
  writes_in_order (run (put_load_route req) st)
  ∧ writes_in_order (run (delete_load_route sc hm req) st).
Proof.
  cbn zeta. split.
  - destruct (authenticated req) eqn:Hauth;
      [|rewrite put_load_unauthenticated by done; by left].
    destruct (kind_Boat st !! boat_id req) as [b|] eqn:Hb;
      [destruct (kind_Load st !! load_id req) as [l|] eqn:Hl|].
    + destruct (carrier l) as [c|] eqn:Hc.
      * rewrite (put_load_taken req st b l c) by done. by left.
      * rewrite (put_load_free req st b l) by done. by right.
    + destruct (put_load_missing req st) as [m ->]; [done|by right|by left].
    + destruct (put_load_missing req st) as [m ->]; [done|by left|by left].
  - destruct (authenticated req) eqn:Hauth;
      [|rewrite delete_load_unauthenticated by done; by left].
    destruct (kind_Boat st !! boat_id req) as [b|] eqn:Hb;
      [destruct (kind_Load st !! load_id req) as [l|] eqn:Hl|].
    + unfold run, init, delete_load_route, not_on_this_boat.
      rewrite Hauth. step. rewrite Hb, Hl.
      destruct (carrier l) as [c|]; step; [|by left].
      unfold resolve. destruct (decide ("keysAreEqual" ∈ sc)); step;
        [|by left].
      destruct (keysAreEqual hm c _); step; [|by left].
      rewrite Hb. step. rewrite Hl. by right.
    + destruct (delete_load_missing sc hm req st) as [m ->];
        [done|by right|by left].
    + destruct (delete_load_missing sc hm req st) as [m ->];
        [done|by left|by left].
Qed.

(** ** Boat updates *)

(** Where [helper] is not bound, the first expression of either update
    handler throws. *)
Lemma patch_boat_unbound sc hm bc req st :
  "helper" ∉ sc →
  run (patch_boat_route sc hm bc req) st
    = (Rejected (ReferenceError "helper"), mkWorld st [] None).
Proof.
  intros Hsc. unfold run, init, patch_boat_route. rewrite run_bind.
  by rewrite resolve_unbound.
Qed.

Lemma put_boat_unbound sc hm bc req st :
  "helper" ∉ sc →
  run (put_boat_route sc hm bc req) st
    = (Rejected (ReferenceError "helper"), mkWorld st [] None).
Proof.
  intros Hsc. unfold run, init, put_boat_route. rewrite run_bind.
  by rewrite resolve_unbound.
Qed.

(** C9: in the scope of [boats.js], where [helper] is not declared, the
    PATCH and PUT handlers for /boats/:boat_id are rejected with a
    ReferenceError for [helper] on every request, before any store call:
    the store is unchanged, the trace is empty and nothing is sent. *)
Theorem boat_updates_always_throw hm bc (req : Request) (st : Store) :
  run (patch_boat_route boats_js hm bc req) st
    = (Rejected (ReferenceError "helper"), mkWorld st [] None)
  ∧ run (put_boat_route boats_js hm bc req) st
    = (Rejected (ReferenceError "helper"), mkWorld st [] None).
Proof.
  split.
  - apply patch_boat_unbound, helper_not_declared.
  - apply put_boat_unbound, helper_not_declared.
Qed.

(** ** Fetching one boat *)

Lemma get_KEY k st e : get k st = Some e → KEY e = k.
Proof.
  unfold get. destruct (kind k).
  - destruct (kind_Boat st !! id k); [|done]. by intros [= <-].
  - destruct (kind_Load st !! id k); [|done]. by intros [= <-].
Qed.

Lemma mapM_ds_get ks w :
  mapM ds_get ks w =
    (Resolved (map (λ k, get k (store w)) ks),
     mkWorld (store w) (trace w ++ map EvGet ks) (sent w)).
Proof.
  revert w. induction ks as [|k ks IH]; intros w.
  - cbn. rewrite app_nil_r. by destruct w.
  - cbn [mapM]. rewrite run_bind. unfold ds_get at 1.
    rewrite run_bind, IH. cbn. by rewrite <- app_assoc.
Qed.

Lemma mapM_projection_all req st ks w :
  Forall (λ k, is_Some (get k st)) ks →
  mapM (load_projection req) (map (λ k, get k st) ks) w
    = (Resolved (map (load_ref req) ks), w).
Proof.
  induction 1 as [|k ks [e He] _ IH]; [done|].
  cbn [map mapM]. rewrite run_bind. unfold load_projection at 1.
  rewrite He. step. rewrite IH. by rewrite (get_KEY _ _ _ He).
Qed.

Lemma mapM_projection_undefined req rs w :
  None ∈ rs →
  mapM (load_projection req) rs w = (Rejected of_undefined, w).
Proof.
  induction rs as [|r rs IH]; intros Hin.
  - by apply not_elem_of_nil in Hin.
  - cbn [mapM]. rewrite run_bind. destruct r as [e|]; [|done].
    unfold load_projection at 1. step.
    apply elem_of_cons in Hin as [?|Hin]; [done|]. by rewrite IH.
Qed.



(** C10: when a reference in an existing Boat's loads names no stored
    record, the single-Boat fetch is rejected with the TypeError of reading
    a property of [undefined]; nothing is sent and the store is left as it
    was. *)
Theorem fetch_throws_on_dangling_reference (req : Request) (st : Store)
    (b : BoatData) (k : Key) :
  boat_id req ≠ "" →
  kind_Boat st !! boat_id req = Some b →
  k ∈ loads b →
  get k st = None →
  let res := run (get_boat_route req) st in
  res.1 = Rejected of_undefined
  ∧ sent res.2 = None
  ∧ after res = st.
Proof.
  intros Hid Hb Hin Hk. cbn zeta. unfold run, init, get_boat_route.
  rewrite decide_False by done. step. rewrite Hb. step.
  rewrite mapM_ds_get. cbn [store].
  rewrite mapM_projection_undefined; [done|].
  rewrite <- Hk. apply (list_elem_of_fmap_2 (λ k, get k st)). exact Hin.
Qed.

Lemma fetch_throws_on_dangling_reference_witness :
  let res := run (get_boat_route (request false "1" "")) st_dangling in
  res.1 = Rejected of_undefined
  ∧ sent res.2 = None
  ∧ after res = st_dangling.
Proof.
  apply (fetch_throws_on_dangling_reference (request false "1" "")
           st_dangling
           (mkBoat "Orca" "sloop" 30 (Some "u1") (Some true)
                   [mkKey Load "9"])
           (mkKey Load "9")).
  - discriminate.
  - reflexivity.
  - apply list_elem_of_singleton. reflexivity.
  - reflexivity.
Defined.

(** ** The two-sided invariant *)

Lemma consistent_after_assign st bi li b l :
  kind_Boat st !! bi = Some b →
  kind_Load st !! li = Some l →
  carrier l = None →
  consistent st →
  consistent
    (mkStore (<[bi := boat_with b (mkKey Load li)]> (kind_Boat st))
             (<[li := load_on l (mkKey Boat bi)]> (kind_Load st))).
Proof.
  intros Hb Hl Hc [H1 H2]. split.
  - intros i l0 Hi c Hcar. cbn [kind_Boat kind_Load] in *.
    apply lookup_insert_Some in Hi as [[<- <-]|[Hne Hi]].
    + cbn in Hcar. injection Hcar as <-. split; [done|].
      eexists. cbn [id]. rewrite lookup_insert_eq. split; [done|].
      cbn. apply elem_of_app. right. by apply list_elem_of_singleton.
    + destruct (H1 i l0 Hi c Hcar) as [Hk (b0 & Hb0 & Hin)].
      split; [done|].
      destruct (decide (bi = id c)) as [->|Hbc].
      * eexists. rewrite lookup_insert_eq. split; [done|].
        cbn. apply elem_of_app. left. congruence.
      * exists b0. by rewrite lookup_insert_ne.
  - intros j b0 Hj k Hin. cbn [kind_Boat kind_Load] in *.
    apply lookup_insert_Some in Hj as [[<- <-]|[Hne Hj]].
    + cbn in Hin. apply elem_of_app in Hin as [Hin|Hin].
      * destruct (H2 bi b Hb k Hin) as [Hk (l1 & Hl1 & Hc1)].
        split; [done|]. exists l1. split; [|done].
        rewrite lookup_insert_ne; [done|]. intros E. rewrite E in Hl. congruence.
      * apply list_elem_of_singleton in Hin as ->. split; [done|].
        eexists. cbn [id]. by rewrite lookup_insert_eq.
    + destruct (H2 j b0 Hj k Hin) as [Hk (l1 & Hl1 & Hc1)].
      split; [done|]. exists l1. split; [|done].
      rewrite lookup_insert_ne; [done|]. intros E. rewrite E in Hl. congruence.
Qed.

Lemma consistent_after_unassign st bi li b l c :
  kind_Boat st !! bi = Some b →
  kind_Load st !! li = Some l →
  carrier l = Some c → id c = bi →
  consistent st →
  consistent
    (mkStore (<[bi := boat_without b (mkKey Load li)]> (kind_Boat st))
             (<[li := load_off l]> (kind_Load st))).
Proof.
  intros Hb Hl Hc Hid [H1 H2]. split.
  - intros i l0 Hi c0 Hcar. cbn [kind_Boat kind_Load] in *.
    apply lookup_insert_Some in Hi as [[<- <-]|[Hne Hi]]; [done|].
    destruct (H1 i l0 Hi c0 Hcar) as [Hk (b0 & Hb0 & Hin)].
    split; [done|].
    destruct (decide (bi = id c0)) as [E|Hbc].
    + eexists. rewrite E at 1. rewrite lookup_insert_eq. split; [done|].
      cbn. apply list_elem_of_filter. split; [cbn; congruence|].
      rewrite <- E in Hb0. congruence.
    + exists b0. by rewrite lookup_insert_ne.
  - intros j b0 Hj k Hin. cbn [kind_Boat kind_Load] in *.
    apply lookup_insert_Some in Hj as [[<- <-]|[Hne Hj]].
    + cbn in Hin. apply list_elem_of_filter in Hin as [Hnk Hin].
      destruct (H2 bi b Hb k Hin) as [Hk (l1 & Hl1 & Hc1)].
      split; [done|]. exists l1. split; [|done].
      rewrite lookup_insert_ne; [done|]. intros E. by apply Hnk.
    + destruct (H2 j b0 Hj k Hin) as [Hk (l1 & Hl1 & Hc1)].
      split; [done|]. exists l1. split; [|done].
      rewrite lookup_insert_ne; [done|]. intros E. rewrite E in Hl.
      assert (c = mkKey Boat j) as -> by congruence. by apply Hne.
Qed.

Lemma consistent_after_boat_deletion st bi b :
  kind_Boat st !! bi = Some b →
  consistent st →
  consistent (delete_boat bi st) ↔ loads b = [].
Proof.
  intros Hb [H1 H2]. split.
  - intros [D1 _]. destruct (loads b) as [|k ks] eqn:Hks; [done|].
    destruct (H2 bi b Hb k) as [Hk (l1 & Hl1 & Hc1)].
    { rewrite Hks. apply elem_of_cons. by left. }
    destruct (D1 (id k) l1 Hl1 _ Hc1) as [_ (b0 & Hb0 & _)].
    cbn in Hb0. by rewrite lookup_delete_eq in Hb0.
  - intros Hnil. split.
    + intros i l0 Hi c Hcar. cbn [delete_boat kind_Boat kind_Load] in *.
      destruct (H1 i l0 Hi c Hcar) as [Hk (b0 & Hb0 & Hin)].
      split; [done|]. exists b0. split; [|done].
      rewrite lookup_delete_ne; [done|]. intros E. rewrite <- E in Hb0.
      assert (b0 = b) as -> by congruence. rewrite Hnil in Hin.
      by apply not_elem_of_nil in Hin.
    + intros j b0 Hj k Hin. cbn [delete_boat kind_Boat kind_Load] in *.
      apply lookup_delete_Some in Hj as [_ Hj].
      exact (H2 j b0 Hj k Hin).
Qed.

Lemma get_boat_route_reads_only req st :
  after (run (get_boat_route req) st) = st.
Proof.
  assert (Hproj : ∀ rs w, (mapM (load_projection req) rs w).2 = w).
  { induction rs as [|r rs IH]; intros w; [done|].
    cbn [mapM]. rewrite run_bind. destruct r as [e|]; [|done].
    unfold load_projection at 1. step. specialize (IH w).
    by destruct (mapM (load_projection req) rs w) as [[]]. }
  unfold after, run, init, get_boat_route.
  destruct (decide (boat_id req = "")); [done|]. step.
  destruct (kind_Boat st !! boat_id req) as [b|]; [|done]. step.
  rewrite mapM_ds_get. cbn [store].
  match goal with
  | |- context [mapM (load_projection req) ?rs ?w] =>
      specialize (Hproj rs w);
      destruct (mapM (load_projection req) rs w) as [[] w']
  end; cbn in *; by subst.
Qed.

(** DELETE /boats/:boat_id: the one run that deletes, and the others. *)
Lemma delete_boat_deletes sc hm req st b :
  "h" ∈ sc → helper_looks_up hm →
  authenticated req = true →
  kind_Boat st !! boat_id req = Some b →
  owner b = sub req →
  run (delete_boat_route sc hm req) st =
    (Resolved tt,
     mkWorld (delete_boat (boat_id req) st)
       [EvGet (mkKey Boat (boat_id req)); EvDelete (mkKey Boat (boat_id req))]
       (Some (mkResp 204 JNothing))).
Proof.
  intros Hsc [Hget Hkey] Hauth Hb Ho.
  unfold run, init, delete_boat_route. rewrite Hauth, run_bind.
  rewrite resolve_bound by done. rewrite run_bind, Hget, Hkey. step.
  rewrite Hb. rewrite decide_False by (intros Hne; by apply Hne). done.
Qed.

Lemma delete_boat_refuses sc hm req st :
  helper_looks_up hm →
  authenticated req = false
  ∨ "h" ∉ sc
  ∨ kind_Boat st !! boat_id req = None
  ∨ (∃ b, kind_Boat st !! boat_id req = Some b ∧ owner b ≠ sub req) →
  let res := run (delete_boat_route sc hm req) st in
  after res = st ∧ sent res.2 ≠ Some (mkResp 204 JNothing).
Proof.
  intros [Hget Hkey] Hcase. cbn zeta.
  unfold after, run, init, delete_boat_route.
  destruct (authenticated req); [|done]. rewrite run_bind.
  unfold resolve. destruct (decide ("h" ∈ sc)) as [Hsc|Hsc]; [|done]. step.
  rewrite Hget. step.
  destruct (kind_Boat st !! boat_id req) as [b|] eqn:Hb; [|done].
  destruct (decide (owner b ≠ sub req)) as [Hne|He]; [done|].
  destruct Hcase as [?|[?|[?|(b' & [= <-] & ?)]]]; done.
Qed.

(** A Boat written by the assign handler has no [owner] any more, so a
    caller with a principal cannot delete it: the ownership check, not a
    check of its loads, turns the request down. *)
Lemma assigned_boat_cannot_be_deleted sc hm req req' st b l u :
  "h" ∈ sc → helper_looks_up hm →
  authenticated req = true →
  kind_Boat st !! boat_id req = Some b →
  kind_Load st !! load_id req = Some l →
  carrier l = None →
  authenticated req' = true → boat_id req' = boat_id req →
  sub req' = Some u →
  let st1 := after (run (put_load_route req) st) in
  let res := run (delete_boat_route sc hm req') st1 in
  outcome res = Conflict "This boat_id exists but you are not the owner."
  ∧ after res = st1.
Proof.
  intros Hsc [Hget Hkey] Hauth Hb Hl Hc Hauth' Hid Hsub. cbn zeta.
  rewrite (put_load_free req st b l) by done.
  unfold after, run, init, delete_boat_route. cbn [snd store].
  rewrite Hauth', run_bind. rewrite resolve_bound by done.
  rewrite run_bind, Hget, Hkey, Hid. step. rewrite lookup_insert_eq.
  cbn. rewrite Hsub. rewrite decide_True by done. done.
Qed.

(** ** Further properties of the handlers *)

(** X1: the existence checks of the assign and the unassign handler.  For
    an authenticated caller whose request spells both identifiers as the
    store does, both records are read, in the order Boat then Load, before
    anything is decided; when neither is stored the answer is 404 naming
    both, when only the Boat is missing 404 naming the boat, when only the
    Load is missing 404 naming the load, and in each case the store is
    left as it was. *)
Theorem assignment_existence_checks sc hm (req : Request) (st : Store) :
  authenticated req = true →
  store_spelled (boat_id req) →
  store_spelled (load_id req) →
  let answer (msg : string) : Completion unit * World :=
    (Resolved tt,
     mkWorld st
       [EvGet (mkKey Boat (boat_id req)); EvGet (mkKey Load (load_id req))]
       (Some (mkResp 404 (JError msg)))) in
  let both (msg : string) :=
    run (put_load_route req) st = answer msg
    ∧ run (delete_load_route sc hm req) st = answer msg in
  (kind_Boat st !! boat_id req = None →
   kind_Load st !! load_id req = None →
   both "The specified boat and load does not exist")
  ∧ (kind_Boat st !! boat_id req = None →
     is_Some (kind_Load st !! load_id req) →
     both "The specified boat does not exist")
  ∧ (is_Some (kind_Boat st !! boat_id req) →
     kind_Load st !! load_id req = None →
     both "The specified load does not exist").
Proof.
  intros Hauth _ _. cbn zeta.
  unfold run, init, put_load_route, delete_load_route. rewrite Hauth. step.
  split; [|split].
  - intros Hb Hl. rewrite Hb, Hl. by split.
  - intros Hb [l Hl]. rewrite Hb, Hl. by split.
  - intros [b Hb] Hl. rewrite Hb, Hl. by split.
Qed.

(** Boat 3 is not stored, Load 9 is. *)
Lemma assignment_existence_checks_witness :
  run (put_load_route (request true "3" "9")) st_unassigned
  = (Resolved tt,
     mkWorld st_unassigned [EvGet (mkKey Boat "3"); EvGet (mkKey Load "9")]
       (Some (mkResp 404 (JError "The specified boat does not exist")))).
Proof.
  refine (proj1 (proj1 (proj2
    (assignment_existence_checks boats_js helper_js (request true "3" "9")
       st_unassigned eq_refl _ _)) eq_refl _)).
  - exists 3%N. by vm_compute.
  - exists 9%N. by vm_compute.
  - by eexists.
Defined.

(** X2: a successful assignment rewrites two records and nothing else.
    Every other Boat and Load is as before; the Boat keeps its name, type
    and length, gets the Load's key appended and loses [owner] and
    [isPublic]; the Load keeps its volume, content and creation date and
    gets the Boat's key as carrier.  No check involves the caller's
    principal. *)
Theorem assign_touches_two_records (req : Request) (st : Store)
    (b : BoatData) (l : LoadData) :
  authenticated req = true →
  kind_Boat st !! boat_id req = Some b →
  kind_Load st !! load_id req = Some l →
  carrier l = None →
  let st' := after (run (put_load_route req) st) in
  (∀ j, j ≠ boat_id req → kind_Boat st' !! j = kind_Boat st !! j)
  ∧ (∀ i, i ≠ load_id req → kind_Load st' !! i = kind_Load st !! i)
  ∧ kind_Boat st' !! boat_id req
    = Some (mkBoat (b_name b) (b_type b) (b_length b) None None
                   (loads b ++ [mkKey Load (load_id req)]))
  ∧ kind_Load st' !! load_id req
    = Some (mkLoad (volume l) (Some (mkKey Boat (boat_id req)))
                   (content l) (creation_date l)).
Proof.
  intros Hauth Hb Hl Hc. cbn zeta.
  rewrite (put_load_free req st b l) by done.
  unfold after. cbn [snd store kind_Boat kind_Load].
  repeat split.
  - intros j Hj. by rewrite lookup_insert_ne.
  - intros i Hi. by rewrite lookup_insert_ne.
  - by rewrite lookup_insert_eq.
  - by rewrite lookup_insert_eq.
Qed.

Lemma assign_touches_two_records_witness :
  let st' := after (run (put_load_route (stranger "1" "9")) st_two_loads) in
  (∀ j, j ≠ "1" → kind_Boat st' !! j = kind_Boat st_two_loads !! j)
  ∧ (∀ i, i ≠ "9" → kind_Load st' !! i = kind_Load st_two_loads !! i)
  ∧ kind_Boat st' !! "1"
    = Some (mkBoat "Orca" "sloop" 30 None None [mkKey Load "9"])
  ∧ kind_Load st' !! "9"
    = Some (mkLoad 5 (Some (mkKey Boat "1")) "fish" "06/01/2021").
Proof.
  apply (assign_touches_two_records (stranger "1" "9") st_two_loads orca
           crate); reflexivity.
Defined.

(** X3: a Load that was assigned to one Boat cannot be assigned to
    another.  After [Assign(B1, L)] succeeds, [Assign(B2, L)] with
    [B2 ≠ B1] answers 403 "already assigned to another boat", writes
    nothing, and leaves L's carrier naming B1 and B2's record as it was. *)
Theorem assign_to_second_boat_refused (req1 req2 : Request) (st : Store)
    (b1 b2 : BoatData) (l : LoadData) :
  authenticated req1 = true → authenticated req2 = true →
  load_id req2 = load_id req1 → boat_id req2 ≠ boat_id req1 →
  kind_Boat st !! boat_id req1 = Some b1 →
  kind_Boat st !! boat_id req2 = Some b2 →
  kind_Load st !! load_id req1 = Some l →
  carrier l = None →
  let st1 := after (run (put_load_route req1) st) in
  let res := run (put_load_route req2) st1 in
  outcome res = Conflict already_another_boat
  ∧ updates (trace res.2) = []
  ∧ after res = st1
  ∧ kind_Load (after res) !! load_id req1
    = Some (load_on l (mkKey Boat (boat_id req1)))
  ∧ kind_Boat (after res) !! boat_id req2 = Some b2.
Proof.
  intros Ha1 Ha2 Hl21 Hb21 Hb1 Hb2 Hl Hc. cbn zeta.
  rewrite (put_load_free req1 st b1 l) by done.
  unfold after. cbn [snd store].
  rewrite (put_load_taken req2 _ b2
             (load_on l (mkKey Boat (boat_id req1)))
             (mkKey Boat (boat_id req1))).
  - cbn [snd store trace id kind_Boat kind_Load].
    rewrite decide_False by done.
    rewrite lookup_insert_eq, lookup_insert_ne by done. done.
  - done.
  - cbn [kind_Boat]. by rewrite lookup_insert_ne.
  - cbn [kind_Load]. rewrite Hl21. apply lookup_insert_eq.
  - done.
Qed.

Lemma assign_to_second_boat_refused_witness :
  let st1 := after (run (put_load_route (request true "1" "9"))
                        st_unassigned) in
  let res := run (put_load_route (request true "2" "9")) st1 in
  outcome res = Conflict already_another_boat
  ∧ updates (trace res.2) = []
  ∧ after res = st1
  ∧ kind_Load (after res) !! "9"
    = Some (load_on crate (mkKey Boat "1"))
  ∧ kind_Boat (after res) !! "2" = Some heron.
Proof.
  apply (assign_to_second_boat_refused (request true "1" "9")
           (request true "2" "9") st_unassigned orca heron crate);
    (reflexivity || discriminate).
Defined.

Lemma get_after_inserts k bs ls i b j l :
  is_Some (get k (mkStore bs ls)) →
  is_Some (get k (mkStore (<[i := b]> bs) (<[j := l]> ls))).
Proof.
  unfold get. destruct (kind k); cbn [kind_Boat kind_Load];
    rewrite !fmap_is_Some, lookup_insert_is_Some'; tauto.
Qed.

(** X4: assignments accumulate in order.  Two Loads assigned one after
    the other to the same Boat end its loads in the order of assignment,
    and a fetch of the Boat lists them in that order after the ones it
    had. *)
Theorem assignments_append_in_order (req1 req2 : Request) (st : Store)
    (b : BoatData) (l1 l2 : LoadData) :
  authenticated req1 = true → authenticated req2 = true →
  boat_id req1 ≠ "" →
  boat_id req2 = boat_id req1 → load_id req2 ≠ load_id req1 →
  kind_Boat st !! boat_id req1 = Some b →
  kind_Load st !! load_id req1 = Some l1 → carrier l1 = None →
  kind_Load st !! load_id req2 = Some l2 → carrier l2 = None →
  Forall (λ k, is_Some (get k st)) (loads b) →
  let first := mkKey Load (load_id req1) in
  let second := mkKey Load (load_id req2) in
  let st2 :=
    after (run (put_load_route req2) (after (run (put_load_route req1) st))) in
  (∃ b', kind_Boat st2 !! boat_id req1 = Some b'
         ∧ loads b' = (loads b ++ [first; second])%list)
  ∧ (∃ v, sent (run (get_boat_route req1) st2).2 = Some (mkResp 200 (JBoat v))
          ∧ v_loads v
            = (map (load_ref req1) (loads b)
               ++ [load_ref req1 first; load_ref req1 second])%list).
Proof.
  intros Ha1 Ha2 Hid Hb21 Hl21 Hb Hl1 Hc1 Hl2 Hc2 Hall. cbn zeta.
  rewrite (put_load_free req1 st b l1) by done.
  unfold after at 2 4. cbn [snd store].
  rewrite (put_load_free req2 _
             (boat_with b (mkKey Load (load_id req1))) l2);
    [ | done | rewrite Hb21; apply lookup_insert_eq
      | cbn [kind_Load]; by rewrite lookup_insert_ne | done ].
  unfold after. cbn [snd store]. rewrite Hb21. split.
  - eexists. cbn [kind_Boat]. rewrite lookup_insert_eq. split; [done|].
    cbn. by rewrite <- app_assoc.
  - unfold run, init, get_boat_route. rewrite decide_False by done. step.
    rewrite lookup_insert_eq. step. rewrite mapM_ds_get. cbn [store].
    rewrite mapM_projection_all.
    + eexists. split; [reflexivity|]. cbn.
      by rewrite <- app_assoc, map_app.
    + rewrite <- app_assoc. apply Forall_app. split.
      * eapply Forall_impl; [exact Hall|]. intros k Hk.
        do 2 apply get_after_inserts. by destruct st.
      * repeat constructor; unfold get; cbn;
          rewrite fmap_is_Some, !lookup_insert_is_Some'; tauto.
Qed.

Lemma assignments_append_in_order_witness :
  let st2 :=
    after (run (put_load_route (request true "1" "8"))
               (after (run (put_load_route (request true "1" "9"))
                           st_two_loads))) in
  (∃ b', kind_Boat st2 !! "1" = Some b'
         ∧ loads b' = [mkKey Load "9"; mkKey Load "8"])
  ∧ (∃ v, sent (run (get_boat_route (request true "1" "9")) st2).2
          = Some (mkResp 200 (JBoat v))
          ∧ v_loads v
            = [mkLoadRef "9" "https://api.example/loads/9";
               mkLoadRef "8" "https://api.example/loads/8"]).
Proof.
  apply (assignments_append_in_order (request true "1" "9")
           (request true "1" "8") st_two_loads orca crate barrel);
    try (reflexivity || discriminate).
  constructor.
Defined.

(** X5: in the scope of [boats.js] the unassign handler never succeeds.
    Whatever the request, the store and the helper module, it leaves the
    store as it was, calls no update and does not answer 204; for an
    authenticated caller and stored records it answers 403 "not on this
    boat" when the Load has no carrier and is rejected with a
    ReferenceError for [keysAreEqual], without a response, when it has
    one. *)
Theorem unassign_never_succeeds hm (req : Request) (st : Store) :
  let res := run (delete_load_route boats_js hm req) st in
  after res = st
  ∧ updates (trace res.2) = []
  ∧ outcome res ≠ Success
  ∧ (∀ b l, authenticated req = true →
       kind_Boat st !! boat_id req = Some b →
       kind_Load st !! load_id req = Some l →
       match carrier l with
       | None => outcome res = Conflict not_on_this_boat_msg
       | Some _ =>
           res.1 = Rejected (ReferenceError "keysAreEqual")
           ∧ sent res.2 = None
       end).
Proof.
  cbn zeta.
  destruct (authenticated req) eqn:Hauth;
    [|by rewrite delete_load_unauthenticated].
  destruct (kind_Boat st !! boat_id req) as [b|] eqn:Hb;
    [destruct (kind_Load st !! load_id req) as [l|] eqn:Hl|].
  - destruct (carrier l) as [c|] eqn:Hc.
    + rewrite (delete_load_carrier_unbound boats_js hm req st b l c)
        by (done || apply keysAreEqual_not_declared).
      split_and!; try done. intros b' l' _ [= <-] [= <-]. by rewrite Hc.
    + rewrite (delete_load_null_carrier boats_js hm req st b l) by done.
      split_and!; try done. intros b' l' _ [= <-] [= <-]. by rewrite Hc.
  - destruct (delete_load_missing boats_js hm req st) as [m ->];
      [done|by right|]. split_and!; done.
  - destruct (delete_load_missing boats_js hm req st) as [m ->];
      [done|by left|]. split_and!; done.
Qed.



(** X7: what a successful Boat deletion leaves.  The owner's delete is
    answered 204 and removes that Boat alone: every other Boat and the
    whole table of Loads are as before (nothing cascades).  Afterwards a
    fetch of the Boat answers 404, a second delete answers 403 "No boat
    with this boat_id exists", and an assignment to it answers 404 "The
    specified boat does not exist". *)
Theorem deleted_boat_is_gone sc hm (req : Request) (st : Store)
    (b : BoatData) :
  "h" ∈ sc → helper_looks_up hm →
  authenticated req = true → boat_id req ≠ "" →
  kind_Boat st !! boat_id req = Some b →
  owner b = sub req →
  let res := run (delete_boat_route sc hm req) st in
  let st' := after res in
  let no_boat := "No boat with this boat_id exists" in
  outcome res = Success
  ∧ kind_Boat st' !! boat_id req = None
  ∧ (∀ j, j ≠ boat_id req → kind_Boat st' !! j = kind_Boat st !! j)
  ∧ kind_Load st' = kind_Load st
  ∧ outcome (run (get_boat_route req) st') = NotFound no_boat
  ∧ outcome (run (delete_boat_route sc hm req) st') = Conflict no_boat
  ∧ (is_Some (kind_Load st !! load_id req) →
     outcome (run (put_load_route req) st')
     = NotFound "The specified boat does not exist").
Proof.
  intros Hsc Hlook Hauth Hid Hb Ho. cbn zeta.
  rewrite (delete_boat_deletes sc hm req st b) by done.
  unfold after. cbn [snd store delete_boat kind_Boat kind_Load].
  assert (Hgone : delete (boat_id req) (kind_Boat st) !! boat_id req = None)
    by apply lookup_delete_eq.
  split; [done|]. split; [done|].
  split; [intros j Hj; by rewrite lookup_delete_ne|]. split; [done|].
  destruct Hlook as [Hget Hkey].
  split; [|split].
  - unfold run, init, get_boat_route. rewrite decide_False by done. step.
    by rewrite Hgone.
  - unfold run, init, delete_boat_route. rewrite Hauth, run_bind.
    rewrite resolve_bound by done. rewrite run_bind, Hget. step.
    by rewrite Hgone.
  - intros [l Hl]. unfold run, init, put_load_route. rewrite Hauth. step.
    by rewrite Hgone, Hl.
Qed.

Lemma deleted_boat_is_gone_witness :
  let req := request true "1" "9" in
  let res := run (delete_boat_route boats_js helper_js req) st_loaded in
  let st' := after res in
  let no_boat := "No boat with this boat_id exists" in
  outcome res = Success
  ∧ kind_Boat st' !! "1" = None
  ∧ (∀ j, j ≠ "1" → kind_Boat st' !! j = kind_Boat st_loaded !! j)
  ∧ kind_Load st' = kind_Load st_loaded
  ∧ outcome (run (get_boat_route req) st') = NotFound no_boat
  ∧ outcome (run (delete_boat_route boats_js helper_js req) st')
    = Conflict no_boat
  ∧ (is_Some (kind_Load st_loaded !! "9") →
     outcome (run (put_load_route req) st')
     = NotFound "The specified boat does not exist").
Proof.
  apply (deleted_boat_is_gone boats_js helper_js (request true "1" "9")
           st_loaded
           (mkBoat "Orca" "sloop" 30 (Some "u1") (Some true)
                   [mkKey Load "9"])).
  - apply h_declared.
  - split; reflexivity.
  - reflexivity.
  - discriminate.
  - reflexivity.
  - reflexivity.
Defined.



(** What one request to the router of [boats.js] can do to the store. *)
Lemma serve_cases hm bc (st : Store) (call : Route * Request) :
  helper_looks_up hm →
  let req := call.2 in
  let st' := serve boats_js hm bc st call in
  st' = st
  ∨ (∃ b l, kind_Boat st !! boat_id req = Some b
            ∧ kind_Load st !! load_id req = Some l
            ∧ carrier l = None
            ∧ st' = mkStore
                      (<[boat_id req := boat_with b (mkKey Load (load_id req))]>
                         (kind_Boat st))
                      (<[load_id req := load_on l (mkKey Boat (boat_id req))]>
                         (kind_Load st)))
  ∨ (∃ b, kind_Boat st !! boat_id req = Some b
          ∧ authenticated req = true
          ∧ owner b = sub req
          ∧ st' = delete_boat (boat_id req) st).
Proof.
  intros Hlook. destruct call as [r req]. cbn zeta. unfold serve.
  cbn [fst snd]. destruct r; cbn [handler].
  - left. apply get_boat_route_reads_only.
  - destruct (authenticated req) eqn:Hauth;
      [|left; apply delete_boat_refuses; auto].
    destruct (kind_Boat st !! boat_id req) as [b|] eqn:Hb;
      [|left; apply delete_boat_refuses; auto].
    destruct (decide (owner b = sub req)) as [Ho|Ho];
      [|left; apply delete_boat_refuses; eauto 6].
    right; right. exists b.
    rewrite (delete_boat_deletes boats_js hm req st b)
      by (done || apply h_declared). done.
  - destruct (authenticated req) eqn:Hauth;
      [|left; by rewrite put_load_unauthenticated].
    destruct (kind_Boat st !! boat_id req) as [b|] eqn:Hb;
      [destruct (kind_Load st !! load_id req) as [l|] eqn:Hl|].
    + destruct (carrier l) as [c|] eqn:Hc.
      * left. by rewrite (put_load_taken req st b l c).
      * right; left. exists b, l.
        by rewrite (put_load_free req st b l).
    + left. by destruct (put_load_missing req st) as [m ->]; [|right|].
    + left. by destruct (put_load_missing req st) as [m ->]; [|left|].
  - left. destruct (authenticated req) eqn:Hauth;
      [|by rewrite delete_load_unauthenticated].
    destruct (kind_Boat st !! boat_id req) as [b|] eqn:Hb;
      [destruct (kind_Load st !! load_id req) as [l|] eqn:Hl|].
    + destruct (carrier l) as [c|] eqn:Hc.
      * by rewrite (delete_load_carrier_unbound boats_js hm req st b l c)
          by (done || apply keysAreEqual_not_declared).
      * by rewrite (delete_load_null_carrier boats_js hm req st b l).
    + by destruct (delete_load_missing boats_js hm req st) as [m ->];
        [|right|].
    + by destruct (delete_load_missing boats_js hm req st) as [m ->];
        [|left|].
  - left. by rewrite patch_boat_unbound by apply helper_not_declared.
  - left. by rewrite put_boat_unbound by apply helper_not_declared.
  - left. done.
  - left. done.
Qed.

(** C2: every modelled route of [boats.js] preserves the two-sided
    invariant on the stores the handlers produce, and a Boat that takes
    part in an assignment cannot be destroyed.  From a store that is
    consistent and in which every Boat that lists a Load has no [owner]
    (the assign handler, the only writer of [loads], writes Boats so), a
    request whose authenticated caller carries a principal leaves a store
    of which both hold again, whichever route serves it.  And when the
    Boat named by the request lists a Load, or is the carrier of one, the
    delete handler leaves the store as it was and does not answer 204: an
    authenticated caller is answered 403. *)
Theorem every_route_keeps_the_invariant hm bc (r : Route) (req : Request)
    (st : Store) :
  helper_looks_up hm →
  consistent st →
  loaded_boats_ownerless st →
  has_principal (r, req) →
  let st' := serve boats_js hm bc st (r, req) in
  let res := run (delete_boat_route boats_js hm req) st in
  consistent st'
  ∧ loaded_boats_ownerless st'
  ∧ (∀ b, kind_Boat st !! boat_id req = Some b →
       loads b ≠ []
       ∨ (∃ i l, kind_Load st !! i = Some l
                 ∧ carrier l = Some (mkKey Boat (boat_id req))) →
       after res = st
       ∧ sent res.2 ≠ Some (mkResp 204 JNothing)
       ∧ (authenticated req = true →
          outcome res
          = Conflict "This boat_id exists but you are not the owner.")).
Proof.
  intros Hlook Hcons Hshape Hsub. cbn zeta.
  refine (conj _ (conj _ _)).
  - destruct (serve_cases hm bc st (r, req) Hlook)
      as [->|[(b & l & Hb & Hl & Hc & ->)|(b & Hb & Hauth & Hown & ->)]].
    + done.
    + by apply consistent_after_assign.
    + apply (consistent_after_boat_deletion st _ b); [done..|].
      destruct (decide (loads b = [])) as [|Hne]; [done|].
      specialize (Hshape _ _ Hb Hne). cbn in Hown. rewrite Hshape in Hown.
      by destruct (Hsub Hauth).
  - destruct (serve_cases hm bc st (r, req) Hlook)
      as [->|[(b & l & Hb & Hl & Hc & ->)|(b & Hb & Hauth & Hown & ->)]].
    + done.
    + intros j b' Hj Hne. cbn [kind_Boat] in Hj.
      apply lookup_insert_Some in Hj as [[_ <-]|[_ Hj]]; [done|].
      by apply (Hshape j b').
    + intros j b' Hj Hne. cbn [delete_boat kind_Boat] in Hj.
      apply lookup_delete_Some in Hj as [_ Hj]. by apply (Hshape j b').
  - intros b Hb Hpart.
    assert (Hloaded : loads b ≠ []).
    { destruct Hpart as [?|(i & l & Hl & Hc)]; [done|].
      destruct Hcons as [Hlisted _].
      destruct (Hlisted i l Hl _ Hc) as [_ (b' & Hb' & Hin)].
      cbn in Hb'. assert (b' = b) as -> by congruence.
      intros Hnil. rewrite Hnil in Hin. by apply not_elem_of_nil in Hin. }
    pose proof (Hshape _ _ Hb Hloaded) as Hown.
    assert (Hne : authenticated req = true → owner b ≠ sub req).
    { intros Hauth. rewrite Hown. intros Hs. by destruct (Hsub Hauth). }
    destruct (delete_boat_refuses boats_js hm req st Hlook) as [Hst Hsent].
    { destruct (authenticated req); [|by left].
      right; right; right. exists b. split; [done|]. by apply Hne. }
    split; [done|]. split; [done|].
    intros Hauth. destruct Hlook as [Hget Hkey].
    unfold run, init, delete_boat_route. rewrite Hauth, run_bind.
    rewrite resolve_bound by apply h_declared.
    rewrite run_bind, Hget. step. rewrite Hb.
    by rewrite decide_True by (by apply Hne).
Qed.

(** Load 9 is on Boat 2, as [Assign(2, 9)] left the two records; the
    caller who created Boat 2 asks for its deletion. *)
Lemma every_route_keeps_the_invariant_witness :
  let req := request true "2" "9" in
  let st' := serve boats_js helper_js boat_class st_on_heron
               (DeleteBoat, req) in
  let res := run (delete_boat_route boats_js helper_js req) st_on_heron in
  consistent st'
  ∧ loaded_boats_ownerless st'
  ∧ (∀ b, kind_Boat st_on_heron !! "2" = Some b →
       loads b ≠ []
       ∨ (∃ i l, kind_Load st_on_heron !! i = Some l
                 ∧ carrier l = Some (mkKey Boat "2")) →
       after res = st_on_heron
       ∧ sent res.2 ≠ Some (mkResp 204 JNothing)
       ∧ (authenticated req = true →
          outcome res
          = Conflict "This boat_id exists but you are not the owner.")).
Proof.
  apply (every_route_keeps_the_invariant helper_js boat_class DeleteBoat
           (request true "2" "9") st_on_heron).
  - split; reflexivity.
  - apply (bool_decide_unpack _). vm_compute. exact I.
  - apply (bool_decide_unpack _). vm_compute. exact I.
  - discriminate.
Defined.

Lemma loads_kept_refl st : loads_kept st st.
Proof. split_and!; eauto. Qed.

Lemma loads_kept_trans st1 st2 st3 :
  loads_kept st1 st2 → loads_kept st2 st3 → loads_kept st1 st3.
Proof.
  intros (D1 & B1 & F1 & A1) (D2 & B2 & F2 & A2). split_and!.
  - congruence.
  - by etrans.
  - intros i l Hl Hc. apply F2; [|done]. by apply F1.
  - intros i l Hl. destruct (A1 i l Hl) as (l1 & Hl1 & ? & ? & ?).
    destruct (A2 i l1 Hl1) as (l2 & Hl2 & ? & ? & ?).
    exists l2. split_and!; congruence.
Qed.

Lemma loads_kept_serve hm bc st call :
  helper_looks_up hm → loads_kept st (serve boats_js hm bc st call).
Proof.
  intros Hlook.
  destruct (serve_cases hm bc st call Hlook)
    as [->|[(b & l & Hb & Hl & Hc & ->)|(b & Hb & _ & Ho & ->)]].
  - apply loads_kept_refl.
  - split_and!; cbn [kind_Boat kind_Load].
    + apply dom_insert_lookup_L. eauto.
    + rewrite dom_insert_lookup_L; eauto.
    + intros i l0 Hl0 Hc0. rewrite lookup_insert_ne; [done|].
      intros <-. congruence.
    + intros i l0 Hl0. destruct (decide (load_id call.2 = i)) as [<-|Hne].
      * rewrite lookup_insert_eq. eexists. split; [done|].
        assert (l0 = l) as -> by congruence. done.
      * rewrite lookup_insert_ne by done. eauto.
  - split_and!; cbn [delete_boat kind_Boat kind_Load]; eauto.
    rewrite dom_delete_L. apply subseteq_difference_l. done.
Qed.

(** X9: what no sequence of requests to the modelled routes of
    [boats.js] can do to the Loads.  Whatever requests are served, the
    store holds the same Loads as before (none created, none deleted) and
    no new Boat; a Load that had a carrier is unchanged, so it stays on
    that carrier for good; and every Load keeps its volume, content and
    creation date. *)
Theorem loads_outlive_every_session hm bc (st : Store)
    (calls : list (Route * Request)) :
  helper_looks_up hm →
  let st' := session boats_js hm bc st calls in
  dom (kind_Load st') = dom (kind_Load st)
  ∧ dom (kind_Boat st') ⊆ dom (kind_Boat st)
  ∧ (∀ i l, kind_Load st !! i = Some l → carrier l ≠ None →
       kind_Load st' !! i = Some l)
  ∧ (∀ i l, kind_Load st !! i = Some l →
       ∃ l', kind_Load st' !! i = Some l'
             ∧ volume l' = volume l ∧ content l' = content l
             ∧ creation_date l' = creation_date l).
Proof.
  intros Hlook. cbn zeta. change (loads_kept st (session boats_js hm bc st calls)).
  revert st. induction calls as [|call calls IH]; intros st.
  - apply loads_kept_refl.
  - cbn [session foldl]. eapply loads_kept_trans; [|apply IH].
    by apply loads_kept_serve.
Qed.

Lemma loads_outlive_every_session_witness :
  let st' :=
    session boats_js helper_js boat_class st_on_heron
      [(DeleteLoad, request true "2" "9"); (PutLoad, request true "1" "9");
       (DeleteBoat, request true "1" "9"); (PatchBoat, request true "2" "9")] in
  dom (kind_Load st') = dom (kind_Load st_on_heron)
  ∧ dom (kind_Boat st') ⊆ dom (kind_Boat st_on_heron)
  ∧ (∀ i l, kind_Load st_on_heron !! i = Some l → carrier l ≠ None →
       kind_Load st' !! i = Some l)
  ∧ (∀ i l, kind_Load st_on_heron !! i = Some l →
       ∃ l', kind_Load st' !! i = Some l'
             ∧ volume l' = volume l ∧ content l' = content l
             ∧ creation_date l' = creation_date l).
Proof.
  apply (loads_outlive_every_session helper_js boat_class st_on_heron).
  split; reflexivity.
Defined.

(** X10: a Boat without [owner], which is how the assign handler leaves
    a Boat, cannot be deleted by a caller with a principal.  Through any
    sequence of requests whose authenticated callers have one, the Boat
    stays stored, without owner, with the same name, type and length, and
    its loads only grow at the end. *)
Theorem ownerless_boat_outlives_every_session hm bc (st : Store)
    (calls : list (Route * Request)) (j : string) (b : BoatData) :
  helper_looks_up hm →
  kind_Boat st !! j = Some b →
  owner b = None →
  Forall has_principal calls →
  ∃ b', kind_Boat (session boats_js hm bc st calls) !! j = Some b'
        ∧ owner b' = None
        ∧ b_name b' = b_name b ∧ b_type b' = b_type b
        ∧ b_length b' = b_length b
        ∧ loads b `prefix_of` loads b'.
Proof.
  intros Hlook Hb Ho Hsubs. revert st b Hb Ho.
  induction Hsubs as [|call calls Hsub _ IH]; intros st b Hb Ho.
  - exists b. by split_and!.
  - cbn [session foldl].
    assert (∃ b1, kind_Boat (serve boats_js hm bc st call) !! j = Some b1
                  ∧ owner b1 = None
                  ∧ b_name b1 = b_name b ∧ b_type b1 = b_type b
                  ∧ b_length b1 = b_length b
                  ∧ loads b `prefix_of` loads b1)
      as (b1 & Hb1 & Ho1 & Hn & Ht & Hlen & Hpre).
    { destruct (serve_cases hm bc st call Hlook)
        as [->|[(b0 & l & Hb0 & Hl & Hc & ->)
                |(b0 & Hb0 & Hauth & Hown & ->)]].
      - exists b. by split_and!.
      - cbn [kind_Boat]. destruct (decide (boat_id call.2 = j)) as [<-|Hne].
        + rewrite lookup_insert_eq. eexists. split; [done|].
          assert (b0 = b) as -> by congruence.
          split_and!; try done. cbn. by apply prefix_app_r.
        + rewrite lookup_insert_ne by done. exists b. by split_and!.
      - cbn [delete_boat kind_Boat].
        destruct (decide (boat_id call.2 = j)) as [<-|Hne].
        + assert (b0 = b) as -> by congruence.
          rewrite Ho in Hown. by destruct (Hsub Hauth).
        + rewrite lookup_delete_ne by done. exists b. by split_and!. }
    destruct (IH _ b1 Hb1 Ho1) as (b' & Hb' & Ho' & ? & ? & ? & Hpre').
    exists b'. split_and!; try congruence; by etrans.
Qed.

Lemma ownerless_boat_outlives_every_session_witness :
  ∃ b', kind_Boat
          (session boats_js helper_js boat_class st_on_heron
             [(DeleteBoat, request true "2" "9");
              (DeleteBoat, stranger "2" "9");
              (DeleteLoad, request true "2" "9")]) !! "2" = Some b'
        ∧ owner b' = None
        ∧ b_name b' = "Heron" ∧ b_type b' = "yawl" ∧ b_length b' = 25%Z
        ∧ [mkKey Load "9"] `prefix_of` loads b'.
Proof.
  apply (ownerless_boat_outlives_every_session helper_js boat_class
           st_on_heron _ "2"
           (mkBoat "Heron" "yawl" 25 None None [mkKey Load "9"])).
  - split; reflexivity.
  - reflexivity.
  - reflexivity.
  - repeat constructor; discriminate.
Defined.

(** X11: in the stores the handlers themselves produce, the two-sided
    invariant survives every sequence of requests, Boat deletion included.
    If the store is consistent and every Boat that lists a Load has no
    [owner], then after any requests whose authenticated callers have a
    principal both still hold: the only Boats an owner can delete are
    Boats without loads. *)
Theorem invariant_survives_sessions hm bc (st : Store)
    (calls : list (Route * Request)) :
  helper_looks_up hm →
  consistent st →
  loaded_boats_ownerless st →
  Forall has_principal calls →
  consistent (session boats_js hm bc st calls)
  ∧ loaded_boats_ownerless (session boats_js hm bc st calls).
Proof.
  intros Hlook Hcons Hshape Hsubs. revert st Hcons Hshape.
  induction Hsubs as [|call calls Hsub _ IH]; intros st Hcons Hshape;
    [done|].
  cbn [session foldl]. apply IH.
  - destruct (serve_cases hm bc st call Hlook)
      as [->|[(b & l & Hb & Hl & Hc & ->)|(b & Hb & Hauth & Hown & ->)]].
    + done.
    + by apply consistent_after_assign.
    + apply (consistent_after_boat_deletion st _ b); [done..|].
      destruct (decide (loads b = [])) as [|Hne]; [done|].
      specialize (Hshape _ _ Hb Hne). rewrite Hshape in Hown.
      by destruct (Hsub Hauth).
  - destruct (serve_cases hm bc st call Hlook)
      as [->|[(b & l & Hb & Hl & Hc & ->)|(b & Hb & Hauth & Hown & ->)]].
    + done.
    + intros j b' Hj Hne. cbn [kind_Boat] in Hj.
      apply lookup_insert_Some in Hj as [[_ <-]|[_ Hj]]; [done|].
      by apply (Hshape j b').
    + intros j b' Hj Hne. cbn [delete_boat kind_Boat] in Hj.
      apply lookup_delete_Some in Hj as [_ Hj]. by apply (Hshape j b').
Qed.

Lemma invariant_survives_sessions_witness :
  let calls :=
    [(PutLoad, request true "1" "8"); (DeleteBoat, request true "1" "8");
     (DeleteBoat, request true "2" "9"); (DeleteLoad, request true "1" "8");
     (GetBoat, request false "1" ""); (PutAll, request false "" "")] in
  consistent (session boats_js helper_js boat_class st_two_loads calls)
  ∧ loaded_boats_ownerless
      (session boats_js helper_js boat_class st_two_loads calls).
Proof.
  apply (invariant_survives_sessions helper_js boat_class st_two_loads).
  - split; reflexivity.
  - apply (bool_decide_unpack _). vm_compute. exact I.
  - apply (bool_decide_unpack _). vm_compute. exact I.
  - repeat constructor; discriminate.
Defined.

(** ** [user_class.js] *)

Lemma padded_length (n : nat) :
  (n < 100)%nat → String.length (padStart 2 "0" (pretty n)) = 2%nat.
Proof.
  intros Hn.
  assert (Hall : Forall (λ n, String.length (padStart 2 "0" (pretty n)) = 2%nat)
                        (seq 0 100)).
  { apply (bool_decide_unpack _). vm_compute. exact I. }
  rewrite Forall_forall in Hall. apply Hall, elem_of_seq. lia.
Qed.

Lemma padded_inj (n m : nat) :
  (n < 100)%nat → (m < 100)%nat →
  padStart 2 "0" (pretty n) = padStart 2 "0" (pretty m) → n = m.
Proof.
  intros Hn Hm.
  assert (Hall : Forall (λ n, Forall (λ m,
                   padStart 2 "0" (pretty n) = padStart 2 "0" (pretty m) →
                   n = m) (seq 0 100)) (seq 0 100)).
  { apply (bool_decide_unpack _). vm_compute. exact I. }
  rewrite Forall_forall in Hall.
  specialize (Hall n). rewrite Forall_forall in Hall.
  apply Hall; apply elem_of_seq; lia.
Qed.

Lemma two_characters (s : string) :
  String.length s = 2%nat → ∃ a b, s = String a (String b "").
Proof. destruct s as [|a [|b [|c s]]]; try done. eauto. Qed.

Lemma padded_digits (n : nat) :
  (n < 100)%nat →
  padStart 2 "0" (pretty n)
  = String (Ascii.ascii_of_nat (48 + n / 10))
      (String (Ascii.ascii_of_nat (48 + n mod 10)) "").
Proof.
  intros Hn.
  assert (Hall : Forall (λ n,
                   padStart 2 "0" (pretty n)
                   = String (Ascii.ascii_of_nat (48 + n / 10))
                       (String (Ascii.ascii_of_nat (48 + n mod 10)) ""))
                   (seq 0 100)).
  { apply (bool_decide_unpack _). vm_compute. exact I. }
  rewrite Forall_forall in Hall. apply Hall, elem_of_seq. lia.
Qed.

Lemma year_digits (y : nat) :
  (1000 ≤ Z.of_nat y ≤ 9999)%Z →
  pretty y
  = String (Ascii.ascii_of_nat (48 + y / 1000))
      (String (Ascii.ascii_of_nat (48 + y / 100 mod 10))
         (String (Ascii.ascii_of_nat (48 + y / 10 mod 10))
            (String (Ascii.ascii_of_nat (48 + y mod 10)) ""))).
Proof.
  intros Hy.
  assert (Hall : Forall (λ y,
                   pretty y
                   = String (Ascii.ascii_of_nat (48 + y / 1000))
                       (String (Ascii.ascii_of_nat (48 + y / 100 mod 10))
                          (String (Ascii.ascii_of_nat (48 + y / 10 mod 10))
                             (String (Ascii.ascii_of_nat (48 + y mod 10))
                                ""))))
                   (seq 1000 (9 * 1000))).
  { apply (bool_decide_unpack _). vm_compute. exact I. }
  rewrite Forall_forall in Hall. apply Hall, elem_of_seq. lia.
Qed.

(** X12: the date [_dateNow] writes into [account_created].  For a
    calendar date with a four-digit year the string is, digit by digit,
    the month counted from 1 in two digits, a slash, the day of the month
    in two digits, a slash, and the year in four digits (48 is the
    character code of the digit 0); it has ten characters; and two such
    dates that give the same string are the same date. *)
Theorem dateNow_is_mm_dd_yyyy (t : Date) :
  calendar t →
  let digit (d : nat) := String (Ascii.ascii_of_nat (48 + d)) "" in
  let two (n : nat) := digit (n / 10) +:+ digit (n mod 10) in
  let four (n : nat) :=
    digit (n / 1000) +:+ digit (n / 100 mod 10) +:+ digit (n / 10 mod 10)
    +:+ digit (n mod 10) in
  _dateNow t
  = two (getMonth t + 1) +:+ "/" +:+ two (getDate t) +:+ "/"
    +:+ four (getFullYear t)
  ∧ String.length (_dateNow t) = 10%nat
  ∧ (∀ t', calendar t' → _dateNow t' = _dateNow t → t' = t).
Proof.
  intros (Hd & Hm & Hy). cbn zeta. unfold _dateNow.
  pose proof (padded_digits (getDate t) ltac:(lia)) as Hdd.
  pose proof (padded_digits (getMonth t + 1) ltac:(lia)) as Hmm.
  pose proof (year_digits (getFullYear t) Hy) as Hyyyy.
  rewrite Hdd, Hmm, Hyyyy. split_and!.
  - reflexivity.
  - reflexivity.
  - intros t' (Hd' & Hm' & Hy').
    rewrite <- Hdd, <- Hmm, <- Hyyyy.
    destruct (two_characters _ (padded_length (getDate t) ltac:(lia)))
      as (d1 & d2 & Ed).
    destruct (two_characters _ (padded_length (getMonth t + 1) ltac:(lia)))
      as (m1 & m2 & Em).
    destruct (two_characters _ (padded_length (getDate t') ltac:(lia)))
      as (d1' & d2' & Ed').
    destruct (two_characters _ (padded_length (getMonth t' + 1) ltac:(lia)))
      as (m1' & m2' & Em').
    rewrite Ed, Em, Ed', Em'.
    remember (pretty (getFullYear t)) as yyyy eqn:Ey.
    remember (pretty (getFullYear t')) as yyyy' eqn:Ey'.
    unfold String.append. cbn. fold String.append.
    intros [= -> -> -> -> Hyy]. rewrite Ey, Ey' in Hyy.
    apply (inj pretty) in Hyy.
    rewrite <- Ed in Ed'. apply padded_inj in Ed'; [|lia..].
    rewrite <- Em in Em'. apply padded_inj in Em'; [|lia..].
    destruct t, t'. cbn in *. f_equal; lia.
Qed.

(** 5 June 2021, for which [getMonth] is 5. *)
Lemma dateNow_is_mm_dd_yyyy_witness :
  _dateNow june5 = "06/05/2021"
  ∧ String.length (_dateNow june5) = 10%nat
  ∧ (∀ t', calendar t' → _dateNow t' = _dateNow june5 → t' = june5).
Proof.
  apply (dateNow_is_mm_dd_yyyy june5). unfold calendar. cbn. lia.
Defined.

(** X13: a new user survives insertion and reading back.  A User built
    from a login profile has no id and no self link; [insert] stores it
    under the identifier the store assigns, leaving every user already
    stored untouched; and the User rebuilt from that entity shows the
    assigned id, the profile's sub, first and last name, the creation date
    of the first construction (not the date of the rebuild) and the self
    link [<protocol>://<host>/users/<sub>]. *)
Theorem user_survives_insert_and_read
    (allocateId : gmap string UserData → string)
    (today later : Date) (data : CtorData) (req : Request)
    (users : gmap string UserData) :
  users !! allocateId users = None →
  ∃ u users' d u',
    construct today data None false = inr u
    ∧ uv_id (getUser u) = None ∧ uv_self (getUser u) = None
    ∧ insert allocateId u users = inr users'
    ∧ users ⊆ users'
    ∧ users' !! allocateId users = Some d
    ∧ construct later (entity (allocateId users) d) (Some req) true = inr u'
    ∧ getUser u'
      = mkUserView (Some (allocateId users)) (d_sub data) (d_firstName data)
          (d_lastName data) (Some (_dateNow today))
          (Some (protocol req +:+ "://" +:+ host req +:+ "/users/"
                 +:+ default "undefined" (d_sub data))).
Proof.
  intros Hfresh. eexists _, _, _, _.
  split; [reflexivity|]. split; [reflexivity|]. split; [reflexivity|].
  split; [reflexivity|]. cbn.
  split; [by apply insert_subseteq|].
  split; [apply lookup_insert_eq|].
  split; reflexivity.
Qed.

Lemma user_survives_insert_and_read_witness :
  ∃ u users' d u',
    construct june5 profile None false = inr u
    ∧ uv_id (getUser u) = None ∧ uv_self (getUser u) = None
    ∧ insert next_id u ∅ = inr users'
    ∧ ∅ ⊆ users'
    ∧ users' !! next_id ∅ = Some d
    ∧ construct (mkDate 1 0 2022) (entity (next_id ∅) d)
        (Some (request false "" "")) true = inr u'
    ∧ getUser u'
      = mkUserView (Some (next_id ∅)) (Some "202084202") (Some "George")
          (Some "Kochera") (Some "06/05/2021")
          (Some "https://api.example/users/202084202").
Proof.
  apply (user_survives_insert_and_read next_id june5 (mkDate 1 0 2022)
           profile (request false "" "") ∅).
  apply fresh_string_fresh.
Defined.

(** X14: a User rebuilt from a stored entity carries the entity's key,
    so inserting it again is refused by the store: a registered user is
    not written a second time. *)
Theorem stored_user_cannot_be_inserted_again
    (allocateId : gmap string UserData → string)
    (today : Date) (req : Request) (users : gmap string UserData)
    (k : string) (d : UserData) :
  users !! k = Some d →
  ∃ u, construct today (entity k d) (Some req) true = inr u
       ∧ insert allocateId u users = inl (AlreadyExists k).
Proof.
  intros Hk. eexists. split; [reflexivity|].
  unfold insert, ds_insert. cbn. by rewrite Hk.
Qed.

Lemma stored_user_cannot_be_inserted_again_witness :
  ∃ u, construct june5
         (entity "5629499534213120"
            (mkUserData (Some "202084202") (Some "George") (Some "Kochera")
                        (Some "06/05/2021")))
         (Some (request false "" "")) true = inr u
       ∧ insert next_id u registered = inl (AlreadyExists "5629499534213120").
Proof.
  apply (stored_user_cannot_be_inserted_again next_id june5
           (request false "" "") registered).
  reflexivity.
Defined.
